(** * LoggerApp: the Kafka reverse proxy of the pricewars platform

    A shallow embedding of [LoggerApp.py] and the properties of its
    ingestion loop, its connect replay and its bounded export.

    Conventions.
    - A Python [str] is a [string]; a character stands for a code point
      below 256 (an HTTP header reaches the program decoded as latin-1).
    - Python integers are [Z]; bytes are [Z] in [0, 256).
    - A Python exception is a value of [exn]; code that may raise returns
      a [result]. *)

From Stdlib Require Import ZArith String Ascii List Lia Bool Floats DecimalString.
From stdpp Require Import gmap strings list.

Local Open Scope string_scope.
Local Open Scope list_scope.
Local Open Scope Z_scope.

(** ** hashlib.sha256 (FIPS 180-4) on 32-bit words held in [Z] *)

Module Sha256.

Definition mask32 : Z := 0xFFFFFFFF.

Definition add32 (a b : Z) : Z := (a + b) mod 2 ^ 32.

Definition rotr (n x : Z) : Z :=
  Z.lor (Z.shiftr x n) (Z.land (Z.shiftl x (32 - n)) mask32).

Definition shr (n x : Z) : Z := Z.shiftr x n.

Definition Ch (x y z : Z) : Z :=
  Z.lxor (Z.land x y) (Z.land (Z.lxor x mask32) z).

Definition Maj (x y z : Z) : Z :=
  Z.lxor (Z.lxor (Z.land x y) (Z.land x z)) (Z.land y z).

Definition Sigma0 (x : Z) : Z := Z.lxor (Z.lxor (rotr 2 x) (rotr 13 x)) (rotr 22 x).
Definition Sigma1 (x : Z) : Z := Z.lxor (Z.lxor (rotr 6 x) (rotr 11 x)) (rotr 25 x).
Definition sigma0 (x : Z) : Z := Z.lxor (Z.lxor (rotr 7 x) (rotr 18 x)) (shr 3 x).
Definition sigma1 (x : Z) : Z := Z.lxor (Z.lxor (rotr 17 x) (rotr 19 x)) (shr 10 x).

(** The constants are derived as the standard defines them: from the
    first 64 primes, the first 32 bits of the fractional part of their
    cube roots (round constants) and, for the first 8, of their square
    roots (initial chaining value). *)
Definition is_prime (n : Z) : bool :=
  forallb (fun d => negb (n mod d =? 0)) (map Z.of_nat (seq 2 (Z.to_nat n - 2))).

Definition primes : list Z :=
  Eval vm_compute in filter (fun n => is_prime n = true) (map Z.of_nat (seq 2 310)).

(** The integer cube root, found bit by bit from bit [bits - 1] down. *)
Fixpoint cube_root_bits (bits : nat) (n r : Z) : Z :=
  match bits with
  | O => r
  | S b =>
      let r' := r + 2 ^ Z.of_nat b in
      cube_root_bits b n (if r' * r' * r' <=? n then r' else r)
  end.

Definition frac_cube_root (p : Z) : Z := cube_root_bits 40 (p * 2 ^ 96) 0 mod 2 ^ 32.

Definition frac_square_root (p : Z) : Z := Z.sqrt (p * 2 ^ 64) mod 2 ^ 32.

Definition K : list Z := Eval vm_compute in map frac_cube_root primes.

(** The eight working variables, also the chaining value. *)
Record regs := Regs { ra : Z; rb : Z; rc : Z; rd : Z; re : Z; rf : Z; rg : Z; rh : Z }.

Definition H0 : regs :=
  Eval vm_compute in
    match map frac_square_root primes with
    | a :: b :: c :: d :: e :: f :: g :: h :: _ => Regs a b c d e f g h
    | _ => Regs 0 0 0 0 0 0 0 0
    end.

(** Big-endian conversions. *)
Definition be32 (w : Z) : list Z :=
  [ Z.land (Z.shiftr w 24) 255; Z.land (Z.shiftr w 16) 255;
    Z.land (Z.shiftr w 8) 255; Z.land w 255 ].

Definition word_of (b0 b1 b2 b3 : Z) : Z :=
  Z.lor (Z.lor (Z.shiftl b0 24) (Z.shiftl b1 16)) (Z.lor (Z.shiftl b2 8) b3).

Fixpoint words_of (bs : list Z) : list Z :=
  match bs with
  | b0 :: b1 :: b2 :: b3 :: rest => word_of b0 b1 b2 b3 :: words_of rest
  | _ => []
  end.

(** Padding: 0x80, zeros up to 56 mod 64, then the bit length on 8 bytes. *)
Definition pad (msg : list Z) : list Z :=
  let len := Z.of_nat (length msg) in
  let zeros := (55 - len) mod 64 in
  msg ++ [0x80] ++ repeat 0 (Z.to_nat zeros)
      ++ be32 (Z.shiftr (8 * len) 32) ++ be32 (8 * len).

(** The message schedule, most recent word first. *)
Fixpoint schedule (n : nat) (rev_w : list Z) : list Z :=
  match n with
  | O => rev_w
  | S n' =>
      let w := add32 (add32 (sigma1 (nth 1 rev_w 0)) (nth 6 rev_w 0))
                     (add32 (sigma0 (nth 14 rev_w 0)) (nth 15 rev_w 0)) in
      schedule n' (w :: rev_w)
  end.

Definition round (r : regs) (kw : Z * Z) : regs :=
  let t1 := add32 (add32 (add32 (rh r) (Sigma1 (re r))) (Ch (re r) (rf r) (rg r)))
                  (add32 (fst kw) (snd kw)) in
  let t2 := add32 (Sigma0 (ra r)) (Maj (ra r) (rb r) (rc r)) in
  Regs (add32 t1 t2) (ra r) (rb r) (rc r) (add32 (rd r) t1) (re r) (rf r) (rg r).

Definition compress (h : regs) (block : list Z) : regs :=
  let w := rev (schedule 48 (rev (words_of block))) in
  let r := fold_left round (combine K w) h in
  Regs (add32 (ra h) (ra r)) (add32 (rb h) (rb r)) (add32 (rc h) (rc r)) (add32 (rd h) (rd r))
       (add32 (re h) (re r)) (add32 (rf h) (rf r)) (add32 (rg h) (rg r)) (add32 (rh h) (rh r)).

(** [n] bounds the number of 64-byte blocks. *)
Fixpoint blocks (n : nat) (h : regs) (bs : list Z) : regs :=
  match n, bs with
  | S n', _ :: _ => blocks n' (compress h (firstn 64 bs)) (skipn 64 bs)
  | _, _ => h
  end.

Definition digest (msg : list Z) : list Z :=
  let p := pad msg in
  let h := blocks (length p) H0 p in
  be32 (ra h) ++ be32 (rb h) ++ be32 (rc h) ++ be32 (rd h)
    ++ be32 (re h) ++ be32 (rf h) ++ be32 (rg h) ++ be32 (rh h).

End Sha256.

(** ** base64.b64encode *)

Module Base64.

Definition alphabet : list ascii :=
  list_ascii_of_string "ABCDEFGHIJKLMNOPQRSTUVWXYZabcdefghijklmnopqrstuvwxyz0123456789+/".

Definition pad_char : ascii := "="%char.

(** The table lookup, index masked to six bits as in binascii. *)
Definition b2a (i : Z) : ascii := nth (Z.to_nat (Z.land i 0x3f)) alphabet pad_char.

Fixpoint b64encode (bs : list Z) : list ascii :=
  match bs with
  | [] => []
  | [a] => [ b2a (Z.shiftr a 2); b2a (Z.shiftl (Z.land a 3) 4); pad_char; pad_char ]
  | [a; b] =>
      [ b2a (Z.shiftr a 2);
        b2a (Z.lor (Z.shiftl (Z.land a 3) 4) (Z.shiftr b 4));
        b2a (Z.shiftl (Z.land b 15) 2); pad_char ]
  | a :: b :: c :: rest =>
      b2a (Z.shiftr a 2)
        :: b2a (Z.lor (Z.shiftl (Z.land a 3) 4) (Z.shiftr b 4))
        :: b2a (Z.lor (Z.shiftl (Z.land b 15) 2) (Z.shiftr c 6))
        :: b2a c :: b64encode rest
  end.

End Base64.

(** ** str.encode('utf-8') on code points below 256 *)

Definition utf8_char (c : ascii) : list Z :=
  let cp := Z.of_N (N_of_ascii c) in
  if cp <? 128 then [cp]
  else [ Z.lor 0xC0 (Z.shiftr cp 6); Z.lor 0x80 (Z.land cp 0x3f) ].

Definition encode_utf8 (s : string) : list Z :=
  flat_map utf8_char (list_ascii_of_string s).

(** ** calculate_id *)

Definition calculate_id (token : string) : string :=
  string_of_list_ascii (Base64.b64encode (Sha256.digest (encode_utf8 token))).

(** ** Python values *)

(** Exceptions: the class decides which [except] clause catches one, the
    message is what [str(e)] gives. *)
Inductive exn_class :=
| ValueError | TypeError | KeyError | AssertionError | NoBrokersAvailable | OtherError.

Record exn := Exn { exn_cls : exn_class; exn_msg : string }.

Inductive result (A : Type) : Type :=
| Ok (a : A)
| Raise (e : exn).
Arguments Ok {A} a.
Arguments Raise {A} e.

#[global] Instance result_ret : MRet result := fun A a => Ok a.
#[global] Instance result_bind : MBind result := fun A B f r =>
  match r with
  | Ok a => f a
  | Raise e => Raise e
  end.

Definition is_ValueError (e : exn) : bool :=
  match exn_cls e with ValueError => true | _ => false end.

(** What [json.loads] returns. An object keeps its fields in insertion
    order, as a Python dict does. *)
#[warnings="-register-all"]
Inductive json :=
| JNull
| JBool (b : bool)
| JInt (n : Z)
| JFloat (f : float)
| JStr (s : string)
| JList (items : list json)
| JObj (fields : list (string * json)).

(** A Python dict with string keys: lookup, membership and item
    assignment (an existing key keeps its place, a new one goes last). *)
Section Dict.
Context {A : Type}.

Fixpoint dict_get (k : string) (d : list (string * A)) : option A :=
  match d with
  | [] => None
  | (k', v) :: d' => if String.eqb k k' then Some v else dict_get k d'
  end.

Definition dict_has (k : string) (d : list (string * A)) : bool :=
  match dict_get k d with Some _ => true | None => false end.

Fixpoint dict_set (k : string) (v : A) (d : list (string * A)) : list (string * A) :=
  match d with
  | [] => [(k, v)]
  | (k', v') :: d' =>
      if String.eqb k k' then (k, v) :: d' else (k', v') :: dict_set k v d'
  end.

Definition dict_keys (d : list (string * A)) : list string := map fst d.
End Dict.

(** [p in s] on two strings. *)
Fixpoint is_substring (p s : string) : bool :=
  if String.prefix p s then true
  else match s with
       | EmptyString => false
       | String _ s' => is_substring p s'
       end.

Definition is_JStr (k : string) (j : json) : bool :=
  match j with JStr s => String.eqb s k | _ => false end.

Definition type_error (msg : string) : exn := Exn TypeError msg.

(** [type(j).__name__], as the texts of the interpreter's [TypeError]s
    name it. The texts below are those CPython 3.11 raises. *)
Definition type_name (j : json) : string :=
  match j with
  | JNull => "NoneType"
  | JBool _ => "bool"
  | JInt _ => "int"
  | JFloat _ => "float"
  | JStr _ => "str"
  | JList _ => "list"
  | JObj _ => "dict"
  end.

(** [k in j] for a string [k]. *)
Definition py_in (k : string) (j : json) : result bool :=
  match j with
  | JObj d => Ok (dict_has k d)
  | JList l => Ok (existsb (is_JStr k) l)
  | JStr s => Ok (is_substring k s)
  | _ => Raise (type_error ("argument of type '" ++ type_name j ++ "' is not iterable")%string)
  end.

(** [j[k]] for a string [k]. The text for a [str] is the one of CPython
    3.11; earlier versions stop after "integers". *)
Definition py_getitem (j : json) (k : string) : result json :=
  match j with
  | JObj d =>
      match dict_get k d with
      | Some v => Ok v
      | None => Raise (Exn KeyError ("'" ++ k ++ "'")%string)
      end
  | JList _ => Raise (type_error "list indices must be integers or slices, not str")
  | JStr _ => Raise (type_error "string indices must be integers, not 'str'")
  | _ => Raise (type_error ("'" ++ type_name j ++ "' object is not subscriptable")%string)
  end.

(** [j[k] = v] for a string [k]; the result is the object after the
    assignment. *)
Definition py_setitem (j : json) (k : string) (v : json) : result json :=
  match j with
  | JObj d => Ok (JObj (dict_set k v d))
  | JList _ => Raise (type_error "list indices must be integers or slices, not str")
  | _ => Raise (type_error ("'" ++ type_name j
                            ++ "' object does not support item assignment")%string)
  end.

(** [for x in j]: the values the iteration yields. *)
Definition py_iter (j : json) : result (list json) :=
  match j with
  | JList l => Ok l
  | JObj d => Ok (map JStr (dict_keys d))
  | JStr s => Ok (map (fun c => JStr (String c EmptyString)) (list_ascii_of_string s))
  | _ => Raise (type_error ("'" ++ type_name j ++ "' object is not iterable")%string)
  end.

(** [j == 200]: a bool is an int, a float compares by value. *)
Definition py_eq_200 (j : json) : bool :=
  match j with
  | JBool b => (if b then 1 else 0) =? 200
  | JInt n => n =? 200
  | JFloat f => PrimFloat.eqb f 200%float
  | _ => false
  end.

(** [j == merchant_id], where [merchant_id] is a [str] or [None]. *)
Definition py_eq_opt_str (j : json) (merchant_id : option string) : bool :=
  match j, merchant_id with
  | JNull, None => true
  | JStr s, Some p => String.eqb s p
  | _, _ => false
  end.

(** Truth value of a [str]. *)
Definition truthy (s : string) : bool :=
  match s with EmptyString => false | _ => true end.

(** [s.split(sep)] for a one-character separator: [cur] holds, reversed,
    the characters of the piece being read. *)
Fixpoint split_from (sep : ascii) (cur : list ascii) (s : string) : list string :=
  match s with
  | EmptyString => [string_of_list_ascii (rev cur)]
  | String c s' =>
      if Ascii.eqb c sep then string_of_list_ascii (rev cur) :: split_from sep [] s'
      else split_from sep (c :: cur) s'
  end.

Definition py_split (sep : ascii) (s : string) : list string := split_from sep [] s.

(** [str(n)] for an int. *)
Definition py_str_int (n : Z) : string := NilZero.string_of_int (Z.to_int n).

(** ** The fixed topic list *)

Definition topics : list string :=
  [ "addOffer"; "buyOffer"; "profit"; "updateOffer"; "updates"; "salesPerMinutes";
    "cumulativeAmountBasedMarketshare"; "cumulativeRevenueBasedMarketshare";
    "marketSituation"; "revenuePerMinute"; "revenuePerHour"; "profitPerMinute";
    "inventory_level" ].

Definition in_topics (topic : string) : bool := existsb (String.eqb topic) topics.

(** ** Kafka: broker and consumer *)

Definition TopicPartition : Type := string * Z.

(** A record as the consumer delivers it. [msg_value] stands for the bytes
    of [msg.value] through the only use the program makes of them: the
    outcome of [json.loads(msg.value.decode('utf-8'))], a value or the
    exception raised. *)
Record ConsumerRecord := {
  msg_topic : string;
  msg_timestamp : Z;
  msg_value : result json
}.

(** The broker as a consumer observes it: whether it can be reached, the
    earliest and the end offset of a partition, and the records an
    iteration started at a position yields before it times out. *)
Record Broker := {
  reachable : bool;
  beginning_offset : TopicPartition -> Z;
  end_offset : TopicPartition -> Z;
  fetch : TopicPartition -> Z -> list ConsumerRecord
}.

Record KafkaConsumer := {
  assignment : list TopicPartition;
  positions : gmap TopicPartition Z
}.

Section Consumer.
Variable broker : Broker.

Definition assertion_error (msg : string) : exn := Exn AssertionError msg.

Definition KafkaConsumer_new : result KafkaConsumer :=
  if reachable broker then Ok {| assignment := []; positions := ∅ |}
  else Raise (Exn NoBrokersAvailable "NoBrokersAvailable").

(** [assign]: partitions that stay assigned keep their position. *)
Definition assign (tps : list TopicPartition) (c : KafkaConsumer) : KafkaConsumer :=
  {| assignment := tps;
     positions := filter (fun kv => kv.1 ∈ tps) (positions c) |}.

Definition seek_all (target : TopicPartition -> Z) (c : KafkaConsumer) : result KafkaConsumer :=
  match assignment c with
  | [] => Raise (assertion_error "No partitions are currently assigned")
  | tps =>
      Ok {| assignment := tps;
            positions := foldr (fun tp m => <[tp := target tp]> m) (positions c) tps |}
  end.

Definition seek_to_beginning : KafkaConsumer -> result KafkaConsumer :=
  seek_all (beginning_offset broker).

Definition seek_to_end : KafkaConsumer -> result KafkaConsumer :=
  seek_all (end_offset broker).

(** [position]: a partition without a position is reset to the log end
    (auto_offset_reset is left at 'latest'). *)
Definition position (c : KafkaConsumer) (tp : TopicPartition) : result Z :=
  if bool_decide (tp ∈ assignment c)
  then Ok (default (end_offset broker tp) (positions c !! tp))
  else Raise (assertion_error "Partition is not assigned").

Definition seek (c : KafkaConsumer) (tp : TopicPartition) (offset : Z) : result KafkaConsumer :=
  if offset <? 0 then Raise (assertion_error "Offset must be >= 0")
  else if bool_decide (tp ∈ assignment c)
  then Ok {| assignment := assignment c; positions := <[tp := offset]> (positions c) |}
  else Raise (assertion_error "Unassigned partition").

(** [for msg in consumer], for a consumer reading partition [tp]. *)
Definition iterate (c : KafkaConsumer) (tp : TopicPartition) : result (list ConsumerRecord) :=
  pos ← position c tp;
  Ok (fetch broker tp pos).

End Consumer.

(** ** The state of the process *)

(** The dict [output] built for an accepted message. *)
Record Output := {
  out_topic : string;
  out_timestamp : Z;
  out_value : json
}.

(** [collections.deque(maxlen=n)]: [append] adds on the right and, when
    the length then exceeds [maxlen], removes on the left. *)
Record deque := {
  maxlen : nat;
  items : list Output
}.

Definition deque_new (n : nat) : deque := {| maxlen := n; items := [] |}.

Definition deque_append (x : Output) (d : deque) : deque :=
  let items' := (items d ++ [x])%list in
  {| maxlen := maxlen d;
     items := if (maxlen d <? length items')%nat then tail items' else items' |}.

Inductive kafka_call :=
| KOpen
| KAssign (tps : list TopicPartition)
| KSeekToBeginning
| KSeekToEnd
| KPosition (tp : TopicPartition)
| KSeek (tp : TopicPartition) (offset : Z)
| KIterate
| KClose.

(** What the process does that can be observed from outside, and the calls
    of [calculate_id]. [SocketioEmit] is [self.socketio.emit] (to every
    subscriber; its data stands for [json.dumps(output)]), [Emit] is
    flask_socketio's [emit] inside a connect handler (to the connecting
    subscriber). *)
Inductive event :=
| Hashed (token : string)
| Kafka (call : kafka_call)
| SocketioEmit (name : string) (data : Output)
| Emit (name : string) (data : list Output)
| Printed (label : string) (e : exn)
| ToCsv (filepath : string) (rows : list json).

Record World := {
  dumps : list (string * deque);
  trace : list event
}.

Definition M (A : Type) : Type := World -> result A * World.

#[global] Instance M_ret : MRet M := fun A a w => (Ok a, w).
#[global] Instance M_bind : MBind M := fun A B f m w =>
  match m w with
  | (Ok a, w') => f a w'
  | (Raise e, w') => (Raise e, w')
  end.

Definition lift {A} (r : result A) : M A := fun w => (r, w).

Definition tell (e : event) : M unit :=
  fun w => (Ok tt, {| dumps := dumps w; trace := (trace w ++ [e])%list |}).

Definition get_dumps : M (list (string * deque)) := fun w => (Ok (dumps w), w).

Definition set_dumps (ds : list (string * deque)) : M unit :=
  fun w => (Ok tt, {| dumps := ds; trace := trace w |}).

(** [try: body except ...: handler], for the exceptions [catches] selects. *)
Definition try_except {A} (body : M A) (catches : exn -> bool) (handler : exn -> M A) : M A :=
  fun w =>
    match body w with
    | (Raise e, w') => if catches e then handler e w' else (Raise e, w')
    | ok => ok
    end.

Definition any_Exception (e : exn) : bool := true.

(** A call on a consumer, recorded. *)
Definition kafka {A} (call : kafka_call) (r : result A) : M A :=
  tell (Kafka call);; lift r.

(** [self.dumps[t]] *)
Definition dumps_getitem (t : string) : M deque :=
  ds ← get_dumps;
  match dict_get t ds with
  | Some d => mret d
  | None => lift (Raise (Exn KeyError ("'" ++ t ++ "'")%string))
  end.

(** [self.dumps[t].append(output)] *)
Definition dumps_append (t : string) (output : Output) : M unit :=
  d ← dumps_getitem t;
  ds ← get_dumps;
  set_dumps (dict_set t (deque_append output d) ds).

(** ** KafkaHandler *)

Section Handler.
Variable broker : Broker.

(** The first loop of [__init__]: a buffer per topic, and the end offset
    of each partition. *)
Fixpoint record_end_offsets (ts : list string) (consumer : KafkaConsumer)
    (end_offsets : gmap string Z) : M (KafkaConsumer * gmap string Z) :=
  match ts with
  | [] => mret (consumer, end_offsets)
  | topic :: rest =>
      ds ← get_dumps;
      set_dumps (dict_set topic (deque_new 100) ds);;
      let current_partition : TopicPartition := (topic, 0) in
      consumer ← kafka (KAssign [current_partition]) (Ok (assign [current_partition] consumer));
      consumer ← kafka KSeekToEnd (seek_to_end broker consumer);
      p ← kafka (KPosition current_partition) (position broker consumer current_partition);
      record_end_offsets rest consumer (<[topic := p]> end_offsets)
  end.

(** The second loop of [__init__]. *)
Fixpoint seek_back (ts : list string) (end_offsets : gmap string Z)
    (consumer : KafkaConsumer) : M KafkaConsumer :=
  match ts with
  | [] => mret consumer
  | topic :: rest =>
      e ← match end_offsets !! topic with
          | Some e => mret e
          | None => lift (Raise (Exn KeyError ("'" ++ topic ++ "'")%string))
          end;
      let tp : TopicPartition := (topic, 0) in
      let target := Z.max 0 (e - 100) in
      consumer ← kafka (KSeek tp target) (seek consumer tp target);
      seek_back rest end_offsets consumer
  end.

(** [KafkaHandler.__init__], up to the start of the thread; the result is
    [self.consumer]. *)
Definition KafkaHandler_init : M KafkaConsumer :=
  consumer ← kafka KOpen (KafkaConsumer_new broker);
  set_dumps [];;
  '(consumer, end_offsets) ← record_end_offsets topics consumer ∅;
  let topic_partitions : list TopicPartition := map (fun topic => (topic, 0)) topics in
  consumer ← kafka (KAssign topic_partitions) (Ok (assign topic_partitions consumer));
  seek_back topics end_offsets consumer.

End Handler.

(** The condition of the [continue] in [run]:
    ['http_code' in msg_json and msg_json['http_code'] != 200]. *)
Definition http_code_rejects (msg_json : json) : result bool :=
  has_code ← py_in "http_code" msg_json;
  if has_code : bool
  then code ← py_getitem msg_json "http_code";
       Ok (negb (py_eq_200 code))
  else Ok false.

(** The body of the loop of [run] for one record. *)
Definition run_body (msg : ConsumerRecord) : M unit :=
  try_except
    (msg_json ← lift (msg_value msg);
     rejected ← lift (http_code_rejects msg_json);
     if rejected : bool then mret tt
     else
       let output := {| out_topic := msg_topic msg;
                        out_timestamp := msg_timestamp msg;
                        out_value := msg_json |} in
       dumps_append (msg_topic msg) output;;
       tell (SocketioEmit (msg_topic msg) output))
    any_Exception
    (fun e => tell (Printed "error emit msg" e)).

(** [run] over the records the consumer has delivered so far (its
    iteration has no timeout and does not end by itself). *)
Fixpoint run (stream : list ConsumerRecord) : M unit :=
  match stream with
  | [] => mret tt
  | msg :: rest => run_body msg;; run rest
  end.

Fixpoint emit_dumps (keys : list string) : M unit :=
  match keys with
  | [] => mret tt
  | msg_topic :: rest =>
      d ← dumps_getitem msg_topic;
      tell (Emit msg_topic (items d));;
      emit_dumps rest
  end.

Definition on_connect : M unit :=
  ds ← get_dumps;
  match ds with
  | [] => mret tt
  | _ => emit_dumps (dict_keys ds)
  end.

(** ** market_situation_shaper *)

(** The inner loop: the offers of one situation. An offer is changed in
    place and appended; [expanded_offers] is the list built so far. *)
Fixpoint expand_offers (situation : json) (offers : list json)
    (expanded_offers : list json) : result (list json) :=
  match offers with
  | [] => Ok expanded_offers
  | offer :: rest =>
      ts ← py_getitem situation "timestamp";
      offer ← py_setitem offer "timestamp" ts;
      has_merchant ← py_in "merchant_id" situation;
      offer ← (if has_merchant : bool
               then m ← py_getitem situation "merchant_id";
                    py_setitem offer "triggering_merchant_id" m
               else Ok offer);
      expand_offers situation rest (expanded_offers ++ [offer])%list
  end.

Fixpoint expand_situations (list_of_msgs : list json)
    (expanded_offers : list json) : result (list json) :=
  match list_of_msgs with
  | [] => Ok expanded_offers
  | situation :: rest =>
      offers_value ← py_getitem situation "offers";
      offers ← py_iter offers_value;
      expanded_offers ← expand_offers situation offers expanded_offers;
      expand_situations rest expanded_offers
  end.

(** The rows of the DataFrame returned. *)
Definition market_situation_shaper (list_of_msgs : list json) : result (list json) :=
  expand_situations list_of_msgs [].

(** ** KafkaReverseProxy.export_csv_for_topic *)

(** What a request finds outside the process: the broker, the clock
    ([int(time.time())]) and the outcome of building the DataFrame of the
    rows and writing it to a path. *)
Record Env := {
  env_broker : Broker;
  env_now : Z;
  env_to_csv : string -> list json -> result unit
}.

(** The response before [json.dumps]. *)
Definition response : Type := list (string * string).

(** The condition of the filter on a decoded payload. *)
Definition passes_filter (msg_json : json) (merchant_id : option string) : result bool :=
  has_merchant ← py_in "merchant_id" msg_json;
  if negb has_merchant then Ok true
  else v ← py_getitem msg_json "merchant_id";
       Ok (py_eq_opt_str v merchant_id).

(** The loop over the records the consumer yields; [offset] counts them,
    [msgs] is the list built so far. *)
Fixpoint export_loop (end_offset : Z) (merchant_id : option string) (offset : Z)
    (stream : list ConsumerRecord) (msgs : list json) : M (list json) :=
  match stream with
  | [] => mret msgs
  | msg :: rest =>
      if end_offset <=? offset then mret msgs
      else
        let offset := offset + 1 in
        msgs ← try_except
                 (msg_json ← lift (msg_value msg);
                  keep ← lift (passes_filter msg_json merchant_id);
                  mret (if keep : bool then (msgs ++ [msg_json])%list else msgs))
                 is_ValueError
                 (fun e => tell (Printed "ValueError" e);; mret msgs);
        export_loop end_offset merchant_id offset rest msgs
  end.

(** Lines 102 to 104: the token of the Authorization header and the id
    derived from it. *)
Definition merchant_token_of (auth_header : option string) : option string :=
  match auth_header with
  | Some h => if truthy h then Some (List.last (py_split " " h) "") else None
  | None => None
  end.

Definition merchant_id_of (merchant_token : option string) : M (option string) :=
  match merchant_token with
  | Some token =>
      if truthy token then tell (Hashed token);; mret (Some (calculate_id token))
      else mret None
  | None => mret None
  end.

Section ExportRequest.
Variable env : Env.

(** Lines 110 to 128: the reader of the request and its window; the result
    is the consumer, the first offset to read and the end offset. *)
Definition open_window (topic : string) : M (KafkaConsumer * Z * Z) :=
  let broker := env_broker env in
  consumer ← kafka KOpen (KafkaConsumer_new broker);
  let topic_partition : TopicPartition := (topic, 0) in
  consumer ← kafka (KAssign [topic_partition]) (Ok (assign [topic_partition] consumer));
  consumer ← kafka KSeekToBeginning (seek_to_beginning broker consumer);
  start_offset ← kafka (KPosition topic_partition) (position broker consumer topic_partition);
  consumer ← kafka KSeekToEnd (seek_to_end broker consumer);
  end_offset ← kafka (KPosition topic_partition) (position broker consumer topic_partition);
  let max_messages := 10 ^ 5 in
  let offset := Z.max start_offset (end_offset - max_messages) in
  consumer ← kafka (KSeek topic_partition offset) (seek consumer topic_partition offset);
  mret (consumer, offset, end_offset).

(** The body of the outer [try]. *)
Definition export_body (topic : string) (merchant_id : option string) : M response :=
  '(consumer, offset, end_offset) ← open_window topic;
  stream ← kafka KIterate (iterate (env_broker env) consumer (topic, 0));
  msgs ← export_loop end_offset merchant_id offset stream [];
  kafka KClose (Ok tt);;
  df ← lift (if String.eqb topic "marketSituation"
             then market_situation_shaper msgs
             else Ok msgs);
  let filename := (topic ++ "_" ++ py_str_int (env_now env))%string in
  let filepath := ("data/" ++ filename ++ ".csv")%string in
  tell (ToCsv filepath df);;
  lift (env_to_csv env filepath df);;
  mret [("url", filepath)].

Definition export_csv_for_topic (auth_header : option string) (topic : string) : M response :=
  let merchant_token := merchant_token_of auth_header in
  merchant_id ← merchant_id_of merchant_token;
  if negb (in_topics topic) then mret [("error", "unknown topic")]
  else
    try_except (export_body topic merchant_id)
      any_Exception
      (fun e => mret [("error", ("failed with: " ++ exn_msg e)%string)]).

End ExportRequest.

(** ** KafkaHandler.status and get_topics *)

(** An entry of [status_dict]: [last_message] is [None] where the code
    puts [''], for an empty buffer. *)
Record status_entry := {
  messages : Z;
  last_message : option Output
}.

(** The loop of [status]; the three reads of [self.dumps[topic]] of one
    turn see the same buffer and are one read here. *)
Fixpoint status_loop (keys : list string)
    (status_dict : list (string * status_entry)) : M (list (string * status_entry)) :=
  match keys with
  | [] => mret status_dict
  | topic :: rest =>
      d ← dumps_getitem topic;
      status_loop rest
        (dict_set topic
           {| messages := Z.of_nat (length (items d)); last_message := last (items d) |}
           status_dict)
  end.

(** The dict [status] passes to [json.dumps]. *)
Definition status : M (list (string * status_entry)) :=
  ds ← get_dumps;
  status_loop (dict_keys ds) [].

(** The list [get_topics] passes to [json.dumps]. *)
Definition get_topics : list string := topics.

(** ** wait_for_kafka *)

(** [clock] holds what the successive calls of [time.time()] return after
    the one that gives [start], [attempts] the outcomes of the successive
    calls of the [KafkaConsumer] constructor. The result is the outcome
    with the number of constructor calls made, or [None] when a list ends
    before the function does. [RuntimeError] is an [OtherError]. *)
Fixpoint wait_loop (kafka_endpoint : string) (timeout start : float)
    (clock : list float) (attempts : list (result unit)) (calls : nat)
    : option (result unit * nat) :=
  match clock with
  | [] => None
  | now :: clock' =>
      if PrimFloat.ltb (PrimFloat.sub now start) timeout
      then match attempts with
           | [] => None
           | Ok _ :: _ => Some (Ok tt, S calls)
           | Raise e :: attempts' =>
               match exn_cls e with
               | NoBrokersAvailable =>
                   wait_loop kafka_endpoint timeout start clock' attempts' (S calls)
               | _ => Some (Raise e, S calls)
               end
           end
      else Some (Raise (Exn OtherError (kafka_endpoint ++ " not reachable")%string), calls)
  end.

Definition wait_for_kafka (kafka_endpoint : string) (timeout : float)
    (clock : list float) (attempts : list (result unit)) : option (result unit * nat) :=
  match clock with
  | [] => None
  | start :: clock' => wait_loop kafka_endpoint timeout start clock' attempts 0
  end.

(** ** Notions used in the statements *)

(** The last [n] elements of a list. *)
Definition lastn {A} (n : nat) (l : list A) : list A := drop (length l - n) l.

(** The output [run] stores and broadcasts for a record, if any: the
    record decodes and the [http_code] condition does not reject it. *)
Definition accepted (msg : ConsumerRecord) : option Output :=
  match msg_value msg with
  | Ok msg_json =>
      match http_code_rejects msg_json with
      | Ok false => Some {| out_topic := msg_topic msg;
                            out_timestamp := msg_timestamp msg;
                            out_value := msg_json |}
      | _ => None
      end
  | Raise _ => None
  end.

(** Appending a list of outputs, one after the other. *)
Definition deque_extend (os : list Output) (d : deque) : deque :=
  fold_left (fun d o => deque_append o d) os d.

(** The accepted outputs of a stream for one topic, in arrival order. *)
Definition accepted_for (t : string) (stream : list ConsumerRecord) : list Output :=
  omap accepted (filter (fun msg => msg_topic msg = t) stream).

(** A payload with an [http_code] field whose value is not 200. *)
Definition http_code_not_200 (msg_json : json) : Prop :=
  exists fields code,
    msg_json = JObj fields /\ dict_get "http_code" fields = Some code /\ py_eq_200 code = false.

(** No buffer holds, and no broadcast carried, a payload with an
    [http_code] other than 200. *)
Definition free_of_rejected (w : World) : Prop :=
  (forall t d o, In (t, d) (dumps w) -> In o (items d) -> ~ http_code_not_200 (out_value o))
  /\ (forall name o, In (SocketioEmit name o) (trace w) -> ~ http_code_not_200 (out_value o)).

(** A marketSituation payload seen as the shaper needs it: an object with
    an [offers] list of objects and a [timestamp]. *)
Record situation_view := {
  sv_fields : list (string * json);
  sv_offers : list (list (string * json));
  sv_timestamp : json
}.

Definition is_situation (msg_json : json) (v : situation_view) : Prop :=
  msg_json = JObj (sv_fields v)
  /\ dict_get "offers" (sv_fields v) = Some (JList (map JObj (sv_offers v)))
  /\ dict_get "timestamp" (sv_fields v) = Some (sv_timestamp v).

(** The export row of one offer, in the words of the specification: the
    offer with the parent's timestamp injected and, when the parent
    carries a [merchant_id], with it injected as
    [triggering_merchant_id]. *)
Definition offer_row (v : situation_view) (offer : list (string * json)) : json :=
  let with_ts := dict_set "timestamp" (sv_timestamp v) offer in
  match dict_get "merchant_id" (sv_fields v) with
  | Some m => JObj (dict_set "triggering_merchant_id" m with_ts)
  | None => JObj with_ts
  end.

Definition situation_rows (v : situation_view) : list json :=
  map (offer_row v) (sv_offers v).

(** The filter of the export on an object, in the words of the
    specification: the object has no [merchant_id] field, or that field
    equals the id of the caller. *)
Definition keeps (merchant_id : option string) (fields : list (string * json)) : bool :=
  match dict_get "merchant_id" fields with
  | None => true
  | Some v => py_eq_opt_str v merchant_id
  end.

(** A record the export loop can go past: its payload is undecodable with
    a [ValueError], or decodes to an object. *)
Definition exportable (msg : ConsumerRecord) : Prop :=
  match msg_value msg with
  | Ok (JObj _) => True
  | Ok _ => False
  | Raise e => is_ValueError e = true
  end.

Definition kept_payload (merchant_id : option string) (msg : ConsumerRecord) : option json :=
  match msg_value msg with
  | Ok (JObj fields) => if keeps merchant_id fields then Some (JObj fields) else None
  | _ => None
  end.

Definition decode_error (msg : ConsumerRecord) : list event :=
  match msg_value msg with
  | Raise e => [Printed "ValueError" e]
  | Ok _ => []
  end.

(** The consumer of an export after lines 110 to 128. *)
Definition export_consumer (broker : Broker) (topic : string) (offset : Z) : KafkaConsumer :=
  {| assignment := [(topic, 0)];
     positions :=
       <[(topic, 0) := offset]>
         (<[(topic, 0) := end_offset broker (topic, 0)]>
            (<[(topic, 0) := beginning_offset broker (topic, 0)]>
               (filter (fun kv : TopicPartition * Z => kv.1 ∈ [(topic, 0)]) ∅))) |}.

Definition window_calls (topic : string) (offset : Z) : list event :=
  [ Kafka KOpen; Kafka (KAssign [(topic, 0)]);
    Kafka KSeekToBeginning; Kafka (KPosition (topic, 0));
    Kafka KSeekToEnd; Kafka (KPosition (topic, 0));
    Kafka (KSeek (topic, 0) offset) ].

(** The id lines 102 to 104 derive from a token, and the calls of
    [calculate_id] they make. *)
Definition derived_id (merchant_token : option string) : option string :=
  match merchant_token with
  | Some token => if truthy token then Some (calculate_id token) else None
  | None => None
  end.

Definition hash_calls (merchant_token : option string) : list event :=
  match merchant_token with
  | Some token => if truthy token then [Hashed token] else []
  | None => []
  end.

(** The calls of the first loop of [__init__] for a topic, and the seek
    of the second. *)
Definition end_calls (topic : string) : list event :=
  [ Kafka (KAssign [(topic, 0)]); Kafka KSeekToEnd; Kafka (KPosition (topic, 0)) ].

Definition seek_back_target (broker : Broker) (topic : string) : Z :=
  Z.max 0 (end_offset broker (topic, 0) - 100).

Definition seek_back_call (broker : Broker) (topic : string) : event :=
  Kafka (KSeek (topic, 0) (seek_back_target broker topic)).

Definition all_partitions : list TopicPartition := map (fun topic => (topic, 0)) topics.

(** A character of the base64 alphabet, padding included. *)
Definition base64_char (c : ascii) : Prop := In c Base64.alphabet \/ c = "="%char.

Definition is_kafka_call (e : event) : Prop :=
  match e with Kafka _ => True | _ => False end.

(** The broker whose readers yield, from a position, no record at or
    after the end offset of the partition. *)
Definition clip_reader (broker : Broker) : Broker :=
  {| reachable := reachable broker;
     beginning_offset := beginning_offset broker;
     end_offset := end_offset broker;
     fetch := fun tp pos => take (Z.to_nat (end_offset broker tp - pos)) (fetch broker tp pos) |}.

Definition clip_env (env : Env) : Env :=
  {| env_broker := clip_reader (env_broker env);
     env_now := env_now env;
     env_to_csv := env_to_csv env |}.

(** The part of [export_body] that follows the positioning of the reader:
    the loop over the records it yields, the closing, the shaping and the
    writing (lines 129 to 154). *)
Definition export_tail (env : Env) (topic : string) (merchant_id : option string)
    (offset end_offset : Z) (stream : list ConsumerRecord) : M response :=
  msgs ← export_loop end_offset merchant_id offset stream [];
  kafka KClose (Ok tt);;
  df ← lift (if String.eqb topic "marketSituation"
             then market_situation_shaper msgs
             else Ok msgs);
  let filename := (topic ++ "_" ++ py_str_int (env_now env))%string in
  let filepath := ("data/" ++ filename ++ ".csv")%string in
  tell (ToCsv filepath df);;
  lift (env_to_csv env filepath df);;
  mret [("url", filepath)].

(** The batch a connecting subscriber is sent for one entry of [dumps]. *)
Definition snapshot (entry : string * deque) : event := Emit entry.1 (items entry.2).

(** The buffers as [__init__] leaves them. *)
Definition empty_dumps : list (string * deque) :=
  map (fun topic => (topic, deque_new 100)) topics.

(** The outputs broadcast under the name of a topic, in order. *)
Definition broadcast_on (t : string) (tr : list event) : list Output :=
  omap (fun e => match e with
                 | SocketioEmit name o => if String.eqb name t then Some o else None
                 | _ => None
                 end) tr.

(** The topics of [dumps] with the capacity of their buffers. *)
Definition capacities (ds : list (string * deque)) : list (string * nat) :=
  map (fun entry => (entry.1, maxlen entry.2)) ds.

(** An action that leaves the buffers as they are, adds to the trace only
    events of kind [P] and, when it returns, returns a value of kind [Q]. *)
Definition yields {A} (P : event -> Prop) (Q : A -> Prop) (m : M A) : Prop :=
  forall w,
    dumps (m w).2 = dumps w
    /\ (exists evs, trace (m w).2 = trace w ++ evs /\ Forall P evs)
    /\ (forall a, (m w).1 = Ok a -> Q a).

(** What the ingestion loop adds to the trace: broadcasts and prints. *)
Definition is_emission (e : event) : Prop :=
  match e with SocketioEmit _ _ | Printed _ _ => True | _ => False end.

(** An event that is no write of more than [n] rows. *)
Definition at_most_rows (n : Z) (e : event) : Prop :=
  match e with ToCsv _ rows => Z.of_nat (length rows) <= n | _ => True end.

(** What reaches the subscribers: a broadcast or a batch. *)
Definition is_socket_event (e : event) : Prop :=
  match e with SocketioEmit _ _ | Emit _ _ => True | _ => False end.

Definition is_printed (e : event) : Prop :=
  match e with Printed _ _ => True | _ => False end.

Definition is_to_csv (e : event) : Prop :=
  match e with ToCsv _ _ => True | _ => False end.

Definition any_event (e : event) : Prop := True.

(** A payload that is no container: null, a bool or a number. *)
Definition scalar (j : json) : Prop :=
  match j with
  | JNull | JBool _ | JInt _ | JFloat _ => True
  | _ => False
  end.

(** The exception, other than a [ValueError], that the body of the export
    loop raises on a record, if any. *)
Definition breaks_export (merchant_id : option string) (msg : ConsumerRecord) : option exn :=
  match msg_value msg with
  | Ok msg_json =>
      match passes_filter msg_json merchant_id with
      | Raise e => Some e
      | Ok _ => None
      end
  | Raise e => if is_ValueError e then None else Some e
  end.

(** The entry of [status] for the accepted outputs of a topic. *)
Definition status_of (os : list Output) : status_entry :=
  {| messages := Z.of_nat (length (lastn 100 os)); last_message := last os |}.

(** The check of the loop of [wait_for_kafka] at a reading of the clock. *)
Definition in_time (timeout start now : float) : bool :=
  PrimFloat.ltb (PrimFloat.sub now start) timeout.

Definition no_brokers (r : result unit) : Prop :=
  match r with
  | Raise e => exn_cls e = NoBrokersAvailable
  | Ok _ => False
  end.

(** ** Sample data *)

Definition sample_world : World := {| dumps := empty_dumps; trace := [] |}.

Definition record_404 : ConsumerRecord :=
  {| msg_topic := "buyOffer"; msg_timestamp := 7;
     msg_value := Ok (JObj [("http_code", JInt 404); ("amount", JInt 1)]) |}.

Definition record_200 : ConsumerRecord :=
  {| msg_topic := "buyOffer"; msg_timestamp := 8;
     msg_value := Ok (JObj [("http_code", JInt 200); ("amount", JInt 2)]) |}.

Definition record_plain : ConsumerRecord :=
  {| msg_topic := "addOffer"; msg_timestamp := 9;
     msg_value := Ok (JObj [("price", JFloat 12.5%float)]) |}.

Definition record_garbled : ConsumerRecord :=
  {| msg_topic := "addOffer"; msg_timestamp := 10;
     msg_value := Raise (Exn ValueError "Expecting value: line 1 column 1 (char 0)") |}.

Definition offer_without_merchant : ConsumerRecord :=
  {| msg_topic := "addOffer"; msg_timestamp := 1;
     msg_value := Ok (JObj [("offer_id", JInt 1)]) |}.

Definition offer_of_token_1 : ConsumerRecord :=
  {| msg_topic := "addOffer"; msg_timestamp := 2;
     msg_value := Ok (JObj [("offer_id", JInt 2);
                            ("merchant_id", JStr "PwiqzhIu4jaEMsHKI6BJvGQLr78A/fM6UkKfOLoS2/k=")]) |}.

Definition offer_of_another : ConsumerRecord :=
  {| msg_topic := "addOffer"; msg_timestamp := 3;
     msg_value := Ok (JObj [("offer_id", JInt 3); ("merchant_id", JStr "Q")]) |}.

Definition offer_with_null_merchant : ConsumerRecord :=
  {| msg_topic := "addOffer"; msg_timestamp := 4;
     msg_value := Ok (JObj [("offer_id", JInt 4); ("merchant_id", JNull)]) |}.

Definition sample_log : list ConsumerRecord :=
  [ offer_without_merchant; offer_of_token_1; offer_of_another; offer_with_null_merchant ].

(** A broker with four records in [addOffer] and nothing elsewhere. *)
Definition sample_broker : Broker :=
  {| reachable := true;
     beginning_offset := fun _ => 0;
     end_offset := fun tp => if String.eqb tp.1 "addOffer" then 4 else 0;
     fetch := fun tp pos =>
       if String.eqb tp.1 "addOffer" then drop (Z.to_nat pos) sample_log else [] |}.

Definition sample_env : Env :=
  {| env_broker := sample_broker;
     env_now := 1500000000;
     env_to_csv := fun _ _ => Ok tt |}.

Definition sample_situation : json :=
  JObj [ ("timestamp", JInt 42); ("merchant_id", JStr "m1");
         ("offers", JList [ JObj [("offer_id", JInt 1); ("price", JFloat 9.5%float)];
                            JObj [("offer_id", JInt 2); ("price", JFloat 10%float)];
                            JObj [("offer_id", JInt 3); ("timestamp", JInt 0)] ]) ].

Definition sample_view : situation_view :=
  {| sv_fields := [ ("timestamp", JInt 42); ("merchant_id", JStr "m1");
                    ("offers", JList [ JObj [("offer_id", JInt 1); ("price", JFloat 9.5%float)];
                                       JObj [("offer_id", JInt 2); ("price", JFloat 10%float)];
                                       JObj [("offer_id", JInt 3); ("timestamp", JInt 0)] ]) ];
     sv_offers := [ [("offer_id", JInt 1); ("price", JFloat 9.5%float)];
                    [("offer_id", JInt 2); ("price", JFloat 10%float)];
                    [("offer_id", JInt 3); ("timestamp", JInt 0)] ];
     sv_timestamp := JInt 42 |}.

Definition record_number : ConsumerRecord :=
  {| msg_topic := "addOffer"; msg_timestamp := 11; msg_value := Ok (JInt 5) |}.

Definition record_unknown_topic : ConsumerRecord :=
  {| msg_topic := "nope"; msg_timestamp := 12; msg_value := Ok (JObj [("x", JInt 1)]) |}.

Definition unreachable_broker : Broker :=
  {| reachable := false;
     beginning_offset := fun _ => 0;
     end_offset := fun _ => 0;
     fetch := fun _ _ => [] |}.

Definition unreachable_env : Env :=
  {| env_broker := unreachable_broker; env_now := 0; env_to_csv := fun _ _ => Ok tt |}.

(** A situation that no merchant triggered, with two offers. *)
Definition anonymous_view : situation_view :=
  {| sv_fields := [ ("timestamp", JInt 7);
                    ("offers", JList [ JObj [("offer_id", JInt 1)];
                                       JObj [("offer_id", JInt 2)] ]) ];
     sv_offers := [ [("offer_id", JInt 1)]; [("offer_id", JInt 2)] ];
     sv_timestamp := JInt 7 |}.

Definition anonymous_situation : json := JObj (sv_fields anonymous_view).

(** A broker whose [addOffer] holds a payload that is a number and whose
    [marketSituation] holds one situation. *)
Definition odd_broker : Broker :=
  {| reachable := true;
     beginning_offset := fun _ => 0;
     end_offset := fun tp => if String.eqb tp.1 "addOffer" then 3
                             else if String.eqb tp.1 "marketSituation" then 1
                             else if String.eqb tp.1 "updates" then 1 else 0;
     fetch := fun tp pos =>
       if String.eqb tp.1 "addOffer"
       then drop (Z.to_nat pos) [offer_without_merchant; record_number; offer_of_another]
       else if String.eqb tp.1 "marketSituation"
       then drop (Z.to_nat pos)
              [ {| msg_topic := "marketSituation"; msg_timestamp := 1;
                   msg_value := Ok anonymous_situation |} ]
       else [] |}.

Definition odd_env : Env :=
  {| env_broker := odd_broker; env_now := 1500000000; env_to_csv := fun _ _ => Ok tt |}.

(** * Properties *)

(** ** The monad *)

Ltac msimpl :=
  cbv [mbind mret M_bind M_ret result_bind result_ret lift tell kafka
       get_dumps set_dumps try_except any_Exception dumps_getitem dumps_append].

Lemma bind_ext {A B} (m : M A) (f g : A -> M B) (w : World) :
  (forall a w', f a w' = g a w') -> (m ≫= f) w = (m ≫= g) w.
Proof.
  intros H. unfold mbind, M_bind. destruct (m w) as [[a|e] w']; [apply H | reflexivity].
Qed.

Lemma bind_Ok {A B} (m : M A) (f : A -> M B) (w w' : World) (b : B) :
  (m ≫= f) w = (Ok b, w') -> exists a w1, m w = (Ok a, w1) /\ f a w1 = (Ok b, w').
Proof.
  unfold mbind, M_bind. destruct (m w) as [[a|e] w1]; [eauto | discriminate].
Qed.

(** ** Dicts *)

Section DictFacts.
Context {A : Type}.
Implicit Types (d : list (string * A)) (k : string) (v : A).

Lemma dict_get_set_eq k v d : dict_get k (dict_set k v d) = Some v.
Proof.
  induction d as [|[k' v'] d IH]; simpl.
  - now rewrite String.eqb_refl.
  - destruct (String.eqb k k') eqn:E; simpl; rewrite ?String.eqb_refl, ?E; auto.
Qed.

Lemma dict_get_set_ne k k' v d : k <> k' -> dict_get k' (dict_set k v d) = dict_get k' d.
Proof.
  intros Hne. induction d as [|[k0 v0] d IH]; simpl.
  - destruct (String.eqb k' k) eqn:E; auto.
    apply String.eqb_eq in E. congruence.
  - destruct (String.eqb k k0) eqn:E; simpl.
    + apply String.eqb_eq in E. subst k0.
      destruct (String.eqb k' k) eqn:E'; auto.
      apply String.eqb_eq in E'. congruence.
    + now rewrite IH.
Qed.

Lemma dict_get_In k v d : dict_get k d = Some v -> In (k, v) d.
Proof.
  induction d as [|[k' v'] d IH]; simpl; [discriminate|].
  destruct (String.eqb k k') eqn:E.
  - apply String.eqb_eq in E. intros [= ->]. subst. now left.
  - intros H. right. auto.
Qed.

Lemma dict_set_In k v d k' v' :
  In (k', v') (dict_set k v d) -> (k', v') = (k, v) \/ In (k', v') d.
Proof.
  induction d as [|[k0 v0] d IH]; simpl.
  - intros [H|[]]. now left.
  - destruct (String.eqb k k0); simpl; intros [H|H]; auto.
    destruct (IH H); auto.
Qed.

End DictFacts.

(** ** The bounded buffer *)

Lemma lastn_length {A} (n : nat) (l : list A) : (length (lastn n l) <= n)%nat.
Proof. unfold lastn. rewrite length_drop. lia. Qed.

Lemma deque_append_maxlen x d : maxlen (deque_append x d) = maxlen d.
Proof. reflexivity. Qed.

Lemma tail_drop_app {A} (k : nat) : forall (l : list A) (x : A),
  (k < length l)%nat -> tail (drop k l ++ [x]) = drop (S k) l ++ [x].
Proof.
  induction k as [|k IH]; intros [|y ys] x Hk; simpl in *; try lia.
  - reflexivity.
  - apply IH. lia.
Qed.

(** One append keeps the buffer equal to the last [maxlen] elements of all
    that was ever appended. *)
Lemma deque_append_lastn x d (l : list Output) :
  items d = lastn (maxlen d) l ->
  items (deque_append x d) = lastn (maxlen d) (l ++ [x]).
Proof.
  intros Hd. unfold deque_append. simpl. rewrite Hd. unfold lastn.
  rewrite !length_app, length_drop. simpl.
  destruct (Nat.ltb_spec (maxlen d) (length l - (length l - maxlen d) + 1)) as [Hlt|Hge].
  - assert (Hm : (maxlen d <= length l)%nat) by lia.
    replace (length l + 1 - maxlen d)%nat with (S (length l - maxlen d)) by lia.
    destruct (maxlen d) as [|m] eqn:Em.
    + rewrite Nat.sub_0_r. rewrite drop_ge by lia. simpl.
      rewrite drop_ge; [reflexivity | rewrite length_app; simpl; lia].
    + rewrite (drop_app_le l [x] (S _)) by lia.
      apply tail_drop_app. lia.
  - replace (length l - maxlen d)%nat with 0%nat by lia.
    replace (length l + 1 - maxlen d)%nat with 0%nat by lia.
    reflexivity.
Qed.

Lemma deque_append_In x y d : In y (items (deque_append x d)) -> y = x \/ In y (items d).
Proof.
  unfold deque_append. simpl.
  assert (H : In y (items d ++ [x]) -> y = x \/ In y (items d)).
  { rewrite in_app_iff. simpl. intuition. }
  destruct (_ <? _)%nat; auto.
  intros Hin. apply H. destruct (items d ++ [x])%list; simpl in *; auto.
Qed.

Lemma deque_extend_lastn os : forall d (l : list Output),
  items d = lastn (maxlen d) l ->
  items (deque_extend os d) = lastn (maxlen d) (l ++ os)
  /\ maxlen (deque_extend os d) = maxlen d.
Proof.
  induction os as [|o os IH]; intros d l Hd; simpl.
  - now rewrite app_nil_r.
  - pose proof (IH (deque_append o d) (l ++ [o]) (deque_append_lastn _ _ _ Hd)) as [H1 H2].
    rewrite deque_append_maxlen, <- app_assoc in H1. rewrite deque_append_maxlen in H2.
    split; [exact H1 | exact H2].
Qed.

(** ** The ingestion loop *)

(** What one turn of the loop does, by the outcome of decoding and of the
    [http_code] condition. *)
Lemma run_body_accepted msg o w :
  accepted msg = Some o ->
  run_body msg w =
    match dict_get (msg_topic msg) (dumps w) with
    | Some d =>
        (Ok tt, {| dumps := dict_set (msg_topic msg) (deque_append o d) (dumps w);
                   trace := trace w ++ [SocketioEmit (msg_topic msg) o] |})
    | None =>
        (Ok tt, {| dumps := dumps w;
                   trace := trace w ++ [Printed "error emit msg"
                                          (Exn KeyError ("'" ++ msg_topic msg ++ "'")%string)] |})
    end.
Proof.
  unfold accepted, run_body. msimpl.
  destruct (msg_value msg) as [j|e]; [|discriminate].
  destruct (http_code_rejects j) as [[|]|e]; try discriminate.
  intros [= <-]. simpl.
  destruct (dict_get (msg_topic msg) (dumps w)); reflexivity.
Qed.

Lemma run_body_not_accepted msg w :
  accepted msg = None ->
  run_body msg w = (Ok tt, w)
  \/ exists e, run_body msg w = (Ok tt, {| dumps := dumps w;
                                          trace := trace w ++ [Printed "error emit msg" e] |}).
Proof.
  unfold accepted, run_body. msimpl.
  destruct (msg_value msg) as [j|e]; [|right; eauto].
  destruct (http_code_rejects j) as [[|]|e]; try discriminate; eauto.
Qed.

Lemma run_body_ok msg w : (run_body msg w).1 = Ok tt.
Proof.
  destruct (accepted msg) as [o|] eqn:E.
  - rewrite (run_body_accepted _ _ _ E). now destruct (dict_get _ _).
  - destruct (run_body_not_accepted msg w E) as [->|[e ->]]; reflexivity.
Qed.

Lemma run_cons msg rest w : run (msg :: rest) w = run rest (run_body msg w).2.
Proof.
  simpl. unfold mbind, M_bind. pose proof (run_body_ok msg w) as H.
  destruct (run_body msg w) as [[[]|e] w']; simpl in *; congruence.
Qed.

Lemma run_ok stream : forall w, (run stream w).1 = Ok tt.
Proof.
  induction stream as [|msg rest IH]; intros w; [reflexivity|].
  rewrite run_cons. apply IH.
Qed.

Lemma run_body_dumps msg w :
  dumps (run_body msg w).2 =
    match accepted msg, dict_get (msg_topic msg) (dumps w) with
    | Some o, Some d => dict_set (msg_topic msg) (deque_append o d) (dumps w)
    | _, _ => dumps w
    end.
Proof.
  destruct (accepted msg) as [o|] eqn:E.
  - rewrite (run_body_accepted _ _ _ E). now destruct (dict_get _ _).
  - destruct (run_body_not_accepted msg w E) as [->|[e ->]]; reflexivity.
Qed.

Lemma accepted_for_cons t msg rest :
  accepted_for t (msg :: rest) =
    if decide (msg_topic msg = t)
    then match accepted msg with
         | Some o => o :: accepted_for t rest
         | None => accepted_for t rest
         end
    else accepted_for t rest.
Proof.
  unfold accepted_for. rewrite filter_cons.
  destruct (decide (msg_topic msg = t)); [|reflexivity].
  simpl. now destruct (accepted msg).
Qed.

(** The buffer of a topic after a run: the accepted outputs of that topic
    appended, in order, to what it held. *)
Lemma run_dumps_topic t stream : forall w,
  dict_get t (dumps (run stream w).2)
  = deque_extend (accepted_for t stream) <$> dict_get t (dumps w).
Proof.
  induction stream as [|msg rest IH]; intros w.
  - simpl. now destruct (dict_get t (dumps w)).
  - rewrite run_cons, IH, run_body_dumps, accepted_for_cons.
    destruct (decide (msg_topic msg = t)) as [Heq|Hne].
    + destruct (accepted msg) as [o|]; [|reflexivity].
      rewrite Heq.
      destruct (dict_get t (dumps w)) as [d|] eqn:Ed.
      * rewrite dict_get_set_eq. reflexivity.
      * now rewrite Ed.
    + destruct (accepted msg) as [o|]; [|reflexivity].
      destruct (dict_get (msg_topic msg) (dumps w)) as [d|] eqn:Ed; [|reflexivity].
      now rewrite dict_get_set_ne.
Qed.

Lemma run_app before after w : run (before ++ after) w = run after (run before w).2.
Proof.
  revert w. induction before as [|msg rest IH]; intros w; [reflexivity|].
  rewrite <- app_comm_cons, !run_cons. apply IH.
Qed.

Lemma http_code_not_200_rejects msg_json :
  http_code_not_200 msg_json -> http_code_rejects msg_json = Ok true.
Proof.
  intros (fields & code & -> & Hget & Hne).
  unfold http_code_rejects. simpl. unfold dict_has. rewrite Hget. simpl.
  now rewrite Hne.
Qed.

Lemma accepted_not_rejected msg o : accepted msg = Some o -> ~ http_code_not_200 (out_value o).
Proof.
  unfold accepted. destruct (msg_value msg) as [j|e]; [|discriminate].
  destruct (http_code_rejects j) as [[|]|e] eqn:E; try discriminate.
  intros [= <-] H. simpl in H. apply http_code_not_200_rejects in H. congruence.
Qed.

Lemma run_body_free_of_rejected msg w :
  free_of_rejected w -> free_of_rejected (run_body msg w).2.
Proof.
  intros [Hd Ht].
  destruct (accepted msg) as [o|] eqn:E.
  - pose proof (accepted_not_rejected _ _ E) as Ho.
    rewrite (run_body_accepted _ _ _ E).
    destruct (dict_get (msg_topic msg) (dumps w)) as [d|] eqn:Ed; split; simpl.
    + intros t d' x Hin Hx. apply dict_set_In in Hin as [[= -> ->]|Hin].
      * apply deque_append_In in Hx as [->|Hx]; [exact Ho|].
        apply (Hd _ _ _ (dict_get_In _ _ _ Ed) Hx).
      * apply (Hd _ _ _ Hin Hx).
    + intros name x Hin. apply in_app_iff in Hin as [Hin|[[= _ <-]|[]]]; eauto.
    + exact Hd.
    + intros name x Hin. apply in_app_iff in Hin as [Hin|[[=]|[]]]; eauto.
  - destruct (run_body_not_accepted msg w E) as [->|[e ->]]; split; simpl; auto.
    intros name x Hin. apply in_app_iff in Hin as [Hin|[[=]|[]]]; eauto.
Qed.

Lemma run_free_of_rejected stream : forall w,
  free_of_rejected w -> free_of_rejected (run stream w).2.
Proof.
  induction stream as [|msg rest IH]; intros w Hw; [exact Hw|].
  rewrite run_cons. apply IH, run_body_free_of_rejected, Hw.
Qed.

Lemma empty_dumps_get t : In t topics -> dict_get t empty_dumps = Some (deque_new 100).
Proof.
  unfold topics. simpl.
  intros H. repeat (destruct H as [<-|H]; [reflexivity|]). contradiction.
Qed.

Lemma sample_world_free_of_rejected : free_of_rejected sample_world.
Proof.
  split.
  - intros t d o Hin Ho. unfold sample_world, empty_dumps in Hin. simpl in Hin.
    repeat (destruct Hin as [[= <- <-]|Hin]; [contradiction|]). contradiction.
  - intros name o [].
Defined.

(** C3. A decoded record whose payload has an [http_code] field with a
    value other than 200 is neither stored nor broadcast: at any point of
    the ingestion, processing it leaves the buffers and the trace of
    emissions as they were, the run is the same as if the record had not
    been delivered, and, starting from buffers and a trace free of such
    payloads, no buffer ever holds one and no broadcast carries one. *)
Theorem rejected_http_code_never_stored_nor_broadcast :
  forall (before after : list ConsumerRecord) (msg : ConsumerRecord) (msg_json : json) (w : World),
    free_of_rejected w ->
    msg_value msg = Ok msg_json ->
    http_code_not_200 msg_json ->
    run_body msg (run before w).2 = (Ok tt, (run before w).2)
    /\ run (before ++ msg :: after) w = run (before ++ after) w
    /\ free_of_rejected (run (before ++ msg :: after) w).2.
Proof.
  intros before after msg msg_json w Hw Hv Hrej.
  assert (Hbody : forall w1, run_body msg w1 = (Ok tt, w1)).
  { intros w1. unfold run_body. msimpl. rewrite Hv.
    now rewrite (http_code_not_200_rejects _ Hrej). }
  split; [apply Hbody|]. split.
  - rewrite !run_app, run_cons, Hbody. reflexivity.
  - apply run_free_of_rejected, Hw.
Qed.

Lemma rejected_http_code_witness :
  run_body record_404 (run [record_200] sample_world).2 = (Ok tt, (run [record_200] sample_world).2)
  /\ run ([record_200] ++ record_404 :: [record_plain]) sample_world
     = run ([record_200] ++ [record_plain]) sample_world
  /\ free_of_rejected (run ([record_200] ++ record_404 :: [record_plain]) sample_world).2.
Proof.
  apply (rejected_http_code_never_stored_nor_broadcast
           [record_200] [record_plain] record_404
           (JObj [("http_code", JInt 404); ("amount", JInt 1)]) sample_world).
  - exact sample_world_free_of_rejected.
  - reflexivity.
  - exists [("http_code", JInt 404); ("amount", JInt 1)], (JInt 404).
    repeat split; reflexivity.
Defined.

Lemma run_from_empty_dumps stream w t :
  dumps w = empty_dumps ->
  In t topics ->
  exists d : deque,
    dict_get t (dumps (run stream w).2) = Some d
    /\ maxlen d = 100%nat
    /\ items d = lastn 100 (accepted_for t stream).
Proof.
  intros Hw Ht.
  rewrite run_dumps_topic, Hw, (empty_dumps_get _ Ht). simpl.
  destruct (deque_extend_lastn (accepted_for t stream) (deque_new 100) []) as [Hitems Hmax];
    [reflexivity|].
  eexists; split; [reflexivity|]. split; [exact Hmax | exact Hitems].
Qed.

(** C4. After any run of the ingestion loop from the buffers of
    [__init__], the buffer of every topic has capacity 100, holds at most
    100 outputs, and holds exactly the last 100 accepted outputs of its
    topic in arrival order; an append to a buffer below capacity adds at
    the end, an append to a full buffer drops the oldest element. *)
Theorem history_buffer_holds_last_100 :
  forall (stream : list ConsumerRecord) (w : World) (t : string),
    dumps w = empty_dumps ->
    In t topics ->
    exists d : deque,
      dict_get t (dumps (run stream w).2) = Some d
      /\ maxlen d = 100%nat
      /\ (length (items d) <= 100)%nat
      /\ items d = lastn 100 (accepted_for t stream)
      /\ forall x : Output,
           items (deque_append x d)
           = if (length (items d) <? 100)%nat then items d ++ [x] else tail (items d) ++ [x].
Proof.
  intros stream w t Hw Ht.
  destruct (run_from_empty_dumps stream w t Hw Ht) as (d & Hd & Hmax & Hitems).
  exists d. split; [exact Hd|]. split; [exact Hmax|].
  assert (Hlen : (length (items d) <= 100)%nat) by (rewrite Hitems; apply lastn_length).
  split; [exact Hlen|]. split; [exact Hitems|].
  intros x. unfold deque_append. simpl. rewrite Hmax, length_app. simpl.
  destruct (Nat.ltb_spec (length (items d)) 100);
    destruct (Nat.ltb_spec 100 (length (items d) + 1)); try lia; [reflexivity|].
  destruct (items d); [simpl in *; lia | reflexivity].
Qed.

Lemma history_buffer_witness :
  exists d : deque,
    dict_get "buyOffer" (dumps (run [record_404; record_200; record_plain] sample_world).2) = Some d
    /\ maxlen d = 100%nat
    /\ (length (items d) <= 100)%nat
    /\ items d = lastn 100 (accepted_for "buyOffer" [record_404; record_200; record_plain])
    /\ forall x : Output,
         items (deque_append x d)
         = if (length (items d) <? 100)%nat then items d ++ [x] else tail (items d) ++ [x].
Proof.
  apply (history_buffer_holds_last_100 [record_404; record_200; record_plain] sample_world "buyOffer").
  - reflexivity.
  - simpl. tauto.
Defined.

(** ** The replay on connect *)

Lemma dict_get_app_fresh {A} (k : string) (pre suf : list (string * A)) :
  ~ In k (dict_keys pre) -> dict_get k (pre ++ suf) = dict_get k suf.
Proof.
  unfold dict_keys. induction pre as [|[k' v'] pre IH]; simpl; [reflexivity|].
  intros Hnot. destruct (String.eqb k k') eqn:E.
  - apply String.eqb_eq in E. subst. tauto.
  - apply IH. tauto.
Qed.

Lemma emit_dumps_suffix suf : forall pre w,
  dumps w = pre ++ suf ->
  NoDup (dict_keys (pre ++ suf)) ->
  emit_dumps (dict_keys suf) w
  = (Ok tt, {| dumps := dumps w; trace := trace w ++ map snapshot suf |}).
Proof.
  induction suf as [|[k d] suf IH]; intros pre w Hw Hnd.
  - simpl. rewrite app_nil_r. now destruct w.
  - simpl. msimpl. rewrite Hw.
    assert (Hfresh : ~ In k (dict_keys pre)).
    { unfold dict_keys in *. rewrite map_app in Hnd. simpl in Hnd.
      apply NoDup_app in Hnd as (_ & Hdisj & _).
      intros Hin. apply (Hdisj k); [now apply list_elem_of_In | left]. }
    rewrite (dict_get_app_fresh k pre _ Hfresh). simpl. rewrite String.eqb_refl.
    rewrite (IH (pre ++ [(k, d)])); simpl.
    + rewrite <- app_assoc, <- Hw. reflexivity.
    + rewrite <- app_assoc. exact Hw.
    + rewrite <- app_assoc. exact Hnd.
Qed.

(** C6, as the code has it. On a connection, [on_connect] sends one batch
    for every topic of [dumps], in the order of the dict, each carrying the
    current contents of that topic's buffer - an empty batch for an empty
    buffer - and nothing else; it leaves every buffer as it was. *)
Theorem on_connect_replays_every_buffer :
  forall w : World,
    NoDup (dict_keys (dumps w)) ->
    on_connect w
    = (Ok tt, {| dumps := dumps w; trace := trace w ++ map snapshot (dumps w) |}).
Proof.
  intros w Hnd. unfold on_connect. msimpl.
  destruct (dumps w) as [|entry rest] eqn:Ed.
  - simpl. rewrite app_nil_r. destruct w; simpl in *; now subst.
  - rewrite <- Ed. rewrite (emit_dumps_suffix (dumps w) [] w); [reflexivity|reflexivity|].
    simpl. now rewrite Ed.
Qed.

Lemma on_connect_witness :
  on_connect (run [record_200; record_plain] sample_world).2
  = (Ok tt, {| dumps := dumps (run [record_200; record_plain] sample_world).2;
               trace := trace (run [record_200; record_plain] sample_world).2
                        ++ map snapshot (dumps (run [record_200; record_plain] sample_world).2) |}).
Proof.
  apply (on_connect_replays_every_buffer (run [record_200; record_plain] sample_world).2).
  refine (bool_decide_unpack _ _). vm_compute. exact I.
Defined.

(** C6 as stated fails: with every buffer empty, a connecting subscriber
    is still sent a batch, an empty one, for a topic whose buffer is
    empty. *)
Lemma on_connect_sends_batch_for_empty_buffer :
  dict_get "addOffer" (dumps sample_world) = Some (deque_new 100)
  /\ items (deque_new 100) = []
  /\ trace sample_world = []
  /\ In (Emit "addOffer" []) (trace (on_connect sample_world).2).
Proof. vm_compute. repeat split; auto. Qed.

(** ** The shaper *)

Lemma expand_offers_rows v situation : forall offers expanded_offers,
  is_situation situation v ->
  expand_offers situation (map JObj offers) expanded_offers
  = Ok (expanded_offers ++ map (offer_row v) offers).
Proof.
  intros offers expanded_offers (-> & _ & Hts).
  revert expanded_offers. induction offers as [|offer rest IH]; intros expanded_offers.
  - simpl. now rewrite app_nil_r.
  - simpl. rewrite Hts. cbv [mbind result_bind]. simpl.
    unfold dict_has, offer_row in *.
    destruct (dict_get "merchant_id" (sv_fields v)) as [m|]; simpl;
      rewrite IH, <- app_assoc; reflexivity.
Qed.

Lemma expand_situations_rows : forall list_of_msgs views expanded_offers,
  Forall2 is_situation list_of_msgs views ->
  expand_situations list_of_msgs expanded_offers
  = Ok (expanded_offers ++ flat_map situation_rows views).
Proof.
  intros list_of_msgs views expanded_offers H. revert expanded_offers.
  induction H as [|situation v rest views Hv _ IH]; intros expanded_offers.
  - simpl. now rewrite app_nil_r.
  - simpl. pose proof Hv as (-> & Hoffers & _).
    simpl. rewrite Hoffers. cbv [mbind result_bind]. simpl.
    rewrite (expand_offers_rows v _ _ _ Hv), IH, <- app_assoc. reflexivity.
Qed.

Lemma offer_row_timestamp v offer :
  exists row, offer_row v offer = JObj row /\ dict_get "timestamp" row = Some (sv_timestamp v).
Proof.
  unfold offer_row. destruct (dict_get "merchant_id" (sv_fields v)) as [m|]; eexists; split; eauto.
  - rewrite dict_get_set_ne by discriminate. apply dict_get_set_eq.
  - apply dict_get_set_eq.
Qed.

Lemma offer_row_triggering v offer m :
  dict_get "merchant_id" (sv_fields v) = Some m ->
  exists row, offer_row v offer = JObj row /\ dict_get "triggering_merchant_id" row = Some m.
Proof.
  unfold offer_row. intros ->. eexists; split; eauto. apply dict_get_set_eq.
Qed.

Lemma offer_row_other_fields v offer k :
  k <> "timestamp" -> k <> "triggering_merchant_id" ->
  exists row, offer_row v offer = JObj row /\ dict_get k row = dict_get k offer.
Proof.
  unfold offer_row. intros H1 H2.
  destruct (dict_get "merchant_id" (sv_fields v)) as [m|]; eexists; split; eauto;
    rewrite ?(dict_get_set_ne "triggering_merchant_id") by congruence;
    rewrite dict_get_set_ne by congruence; reflexivity.
Qed.

(** C8. On a list of marketSituation payloads - objects with an [offers]
    list of objects and a [timestamp] - the shaper returns exactly one row
    per nested offer, in order; each row is the offer with the parent's
    timestamp in [timestamp] and, when the parent has a [merchant_id],
    with it in [triggering_merchant_id], its other fields unchanged. A
    payload with three offers, merchant_id "m1" and timestamp 42 gives
    three rows, each with timestamp 42 and triggering_merchant_id "m1". *)
Theorem shaper_one_row_per_offer :
  forall (list_of_msgs : list json) (views : list situation_view),
    Forall2 is_situation list_of_msgs views ->
    market_situation_shaper list_of_msgs = Ok (flat_map situation_rows views)
    /\ length (flat_map situation_rows views)
       = list_sum (map (fun v => length (sv_offers v)) views)
    /\ (forall v offer, In v views -> In offer (sv_offers v) ->
          exists row,
            offer_row v offer = JObj row
            /\ dict_get "timestamp" row = Some (sv_timestamp v)
            /\ (forall m, dict_get "merchant_id" (sv_fields v) = Some m ->
                  dict_get "triggering_merchant_id" row = Some m)
            /\ (forall k, k <> "timestamp" -> k <> "triggering_merchant_id" ->
                  dict_get k row = dict_get k offer))
    /\ (forall v o1 o2 o3,
          views = [v] -> sv_offers v = [o1; o2; o3] ->
          dict_get "merchant_id" (sv_fields v) = Some (JStr "m1") ->
          sv_timestamp v = JInt 42 ->
          exists r1 r2 r3,
            market_situation_shaper list_of_msgs = Ok [JObj r1; JObj r2; JObj r3]
            /\ Forall (fun r => dict_get "timestamp" r = Some (JInt 42)
                                /\ dict_get "triggering_merchant_id" r = Some (JStr "m1"))
                      [r1; r2; r3]).
Proof.
  intros list_of_msgs views H.
  assert (Hshape : market_situation_shaper list_of_msgs = Ok (flat_map situation_rows views)).
  { unfold market_situation_shaper. now rewrite (expand_situations_rows _ _ _ H). }
  split; [exact Hshape|]. split; [|split].
  - clear. induction views as [|v views IH]; [reflexivity|].
    simpl. rewrite length_app, IH. unfold situation_rows. now rewrite length_map.
  - intros v offer _ _.
    destruct (offer_row_timestamp v offer) as (row & Hrow & Hts).
    exists row. repeat split; auto.
    + intros m Hm. destruct (offer_row_triggering v offer m Hm) as (row' & Hrow' & Hm').
      congruence.
    + intros k H1 H2. destruct (offer_row_other_fields v offer k H1 H2) as (row' & Hrow' & Hk).
      congruence.
  - intros v o1 o2 o3 -> Ho Hm Hts. rewrite Hshape.
    simpl. unfold situation_rows. rewrite Ho. simpl. unfold offer_row. rewrite Hm, Hts.
    do 3 eexists. split; [reflexivity|].
    repeat constructor;
      try (rewrite dict_get_set_ne by discriminate); apply dict_get_set_eq.
Qed.

Lemma sample_is_situation : is_situation sample_situation sample_view.
Proof. repeat split. Defined.

Lemma shaper_witness :
  market_situation_shaper [sample_situation] = Ok (flat_map situation_rows [sample_view])
  /\ length (flat_map situation_rows [sample_view]) = 3%nat
  /\ exists r1 r2 r3,
       market_situation_shaper [sample_situation] = Ok [JObj r1; JObj r2; JObj r3]
       /\ Forall (fun r => dict_get "timestamp" r = Some (JInt 42)
                           /\ dict_get "triggering_merchant_id" r = Some (JStr "m1"))
                 [r1; r2; r3].
Proof.
  destruct (shaper_one_row_per_offer [sample_situation] [sample_view]) as (H1 & H2 & _ & H4).
  - constructor; [exact sample_is_situation | constructor].
  - split; [exact H1|]. split; [exact H2|].
    apply (H4 sample_view _ _ _ eq_refl eq_refl eq_refl eq_refl).
Defined.

Example shaper_sample :
  market_situation_shaper [sample_situation]
  = Ok [ JObj [("offer_id", JInt 1); ("price", JFloat 9.5%float);
               ("timestamp", JInt 42); ("triggering_merchant_id", JStr "m1")];
         JObj [("offer_id", JInt 2); ("price", JFloat 10%float);
               ("timestamp", JInt 42); ("triggering_merchant_id", JStr "m1")];
         JObj [("offer_id", JInt 3); ("timestamp", JInt 42);
               ("triggering_merchant_id", JStr "m1")] ].
Proof. vm_compute. reflexivity. Qed.

(** ** The consumer *)

Lemma position_lookup broker c tp v :
  tp ∈ assignment c -> positions c !! tp = Some v -> position broker c tp = Ok v.
Proof.
  intros Hin Hpos. unfold position. rewrite bool_decide_eq_true_2 by exact Hin.
  now rewrite Hpos.
Qed.

Lemma seek_assigned c tp offset :
  0 <= offset -> tp ∈ assignment c ->
  seek c tp offset
  = Ok {| assignment := assignment c; positions := <[tp := offset]> (positions c) |}.
Proof.
  intros Hoff Hin. unfold seek.
  destruct (Z.ltb_spec offset 0); [lia|].
  now rewrite bool_decide_eq_true_2 by exact Hin.
Qed.

(** ** The window of an export *)

(** The loop stops at the end offset fixed before it: of the records the
    consumer yields, only the first [end_offset - offset] are looked at. *)
Lemma export_loop_window end_offset merchant_id stream : forall offset msgs w,
  export_loop end_offset merchant_id offset stream msgs w
  = export_loop end_offset merchant_id offset
      (take (Z.to_nat (end_offset - offset)) stream) msgs w.
Proof.
  induction stream as [|msg rest IH]; intros offset msgs w.
  - now rewrite take_nil.
  - destruct (Z.leb_spec end_offset offset) as [Hle|Hlt].
    + replace (Z.to_nat (end_offset - offset)) with 0%nat by lia.
      simpl. destruct (Z.leb_spec end_offset offset); [reflexivity|lia].
    + replace (Z.to_nat (end_offset - offset))
        with (S (Z.to_nat (end_offset - (offset + 1)))) by lia.
      simpl. destruct (Z.leb_spec end_offset offset); [lia|].
      apply bind_ext. intros msgs' w'. apply IH.
Qed.

Lemma open_window_reachable env topic w :
  reachable (env_broker env) = true ->
  0 <= beginning_offset (env_broker env) (topic, 0) ->
  let start_offset := beginning_offset (env_broker env) (topic, 0) in
  let end_offset := end_offset (env_broker env) (topic, 0) in
  let offset := Z.max start_offset (end_offset - 100000) in
  open_window env topic w
  = (Ok (export_consumer (env_broker env) topic offset, offset, end_offset),
     {| dumps := dumps w; trace := trace w ++ window_calls topic offset |}).
Proof.
  intros Hr Hb start_offset end_offset offset.
  assert (Hoff : 0 <= offset) by (unfold offset, start_offset; lia).
  unfold open_window. msimpl. unfold KafkaConsumer_new. rewrite Hr. simpl.
  erewrite position_lookup; [|simpl; left|simpl; apply lookup_insert_eq].
  erewrite position_lookup; [|simpl; left|simpl; apply lookup_insert_eq].
  rewrite seek_assigned; [|exact Hoff|simpl; left]. simpl.
  repeat rewrite <- app_assoc. reflexivity.
Qed.

Lemma iterate_export_consumer broker topic offset :
  iterate broker (export_consumer broker topic offset) (topic, 0)
  = Ok (fetch broker (topic, 0) offset).
Proof.
  unfold iterate.
  erewrite position_lookup; [reflexivity|simpl; left|simpl; apply lookup_insert_eq].
Qed.

(** ** The filter of an export *)

Lemma passes_filter_object fields merchant_id :
  passes_filter (JObj fields) merchant_id = Ok (keeps merchant_id fields).
Proof.
  unfold passes_filter, keeps. simpl. unfold dict_has.
  destruct (dict_get "merchant_id" fields); reflexivity.
Qed.

Lemma export_loop_filters end_offset merchant_id stream : forall offset msgs w,
  Forall exportable (take (Z.to_nat (end_offset - offset)) stream) ->
  export_loop end_offset merchant_id offset stream msgs w
  = (Ok (msgs ++ omap (kept_payload merchant_id) (take (Z.to_nat (end_offset - offset)) stream)),
     {| dumps := dumps w;
        trace := trace w ++ flat_map decode_error (take (Z.to_nat (end_offset - offset)) stream) |}).
Proof.
  induction stream as [|msg rest IH]; intros offset msgs w.
  - rewrite take_nil. simpl. rewrite !app_nil_r. now destruct w.
  - destruct (Z.leb_spec end_offset offset) as [Hle|Hlt].
    + replace (Z.to_nat (end_offset - offset)) with 0%nat by lia.
      simpl. destruct (Z.leb_spec end_offset offset); [|lia].
      rewrite !app_nil_r. now destruct w.
    + replace (Z.to_nat (end_offset - offset))
        with (S (Z.to_nat (end_offset - (offset + 1)))) by lia.
      rewrite firstn_cons. intros Hall. apply Forall_cons in Hall as [Hmsg Hall].
      simpl. destruct (Z.leb_spec end_offset offset); [lia|].
      unfold exportable, kept_payload, decode_error in *. msimpl.
      destruct (msg_value msg) as [j|e].
      * destruct j; try contradiction. rewrite passes_filter_object.
        rewrite (IH _ _ _ Hall). simpl.
        destruct (keeps merchant_id fields); simpl; rewrite <- ?app_assoc; reflexivity.
      * rewrite Hmsg. rewrite (IH _ _ _ Hall). simpl. rewrite <- app_assoc. reflexivity.
Qed.

Lemma keeps_with_id fields p :
  keeps (Some p) fields = true
  <-> dict_get "merchant_id" fields = None \/ dict_get "merchant_id" fields = Some (JStr p).
Proof.
  unfold keeps. destruct (dict_get "merchant_id" fields) as [v|]; [|tauto].
  split.
  - destruct v; simpl; try discriminate. intros H. apply String.eqb_eq in H. subst. auto.
  - intros [H|[= ->]]; [discriminate|]. simpl. apply String.eqb_refl.
Qed.

Lemma keeps_without_id fields :
  keeps None fields = true
  <-> dict_get "merchant_id" fields = None \/ dict_get "merchant_id" fields = Some JNull.
Proof.
  unfold keeps. destruct (dict_get "merchant_id" fields) as [v|]; [|tauto].
  split.
  - destruct v; simpl; try discriminate. auto.
  - intros [H|[= ->]]; [discriminate|]. reflexivity.
Qed.

(** ** The export request *)

Lemma merchant_id_of_derived merchant_token w :
  merchant_id_of merchant_token w
  = (Ok (derived_id merchant_token),
     {| dumps := dumps w; trace := trace w ++ hash_calls merchant_token |}).
Proof.
  unfold merchant_id_of, derived_id, hash_calls.
  destruct merchant_token as [token|]; [destruct (truthy token)|]; msimpl;
    rewrite ?app_nil_r; destruct w; reflexivity.
Qed.

Lemma in_topics_In topic : in_topics topic = true <-> In topic topics.
Proof.
  unfold in_topics. rewrite existsb_exists. split.
  - intros (t & Hin & Heq). apply String.eqb_eq in Heq. now subst.
  - intros Hin. exists topic. split; [exact Hin | apply String.eqb_refl].
Qed.

Lemma export_body_url env topic merchant_id w r w' :
  export_body env topic merchant_id w = (Ok r, w') -> exists filepath, r = [("url", filepath)].
Proof.
  unfold export_body. intros H.
  apply bind_Ok in H as ([[consumer offset] end_offset] & w1 & _ & H).
  apply bind_Ok in H as (stream & w2 & _ & H).
  apply bind_Ok in H as (msgs & w3 & _ & H).
  apply bind_Ok in H as ([] & w4 & _ & H).
  apply bind_Ok in H as (df & w5 & _ & H).
  apply bind_Ok in H as ([] & w6 & _ & H).
  apply bind_Ok in H as ([] & w7 & _ & H).
  injection H as <- _. eauto.
Qed.

Lemma export_csv_rows env auth_header topic w :
  In topic topics ->
  topic <> "marketSituation" ->
  reachable (env_broker env) = true ->
  0 <= beginning_offset (env_broker env) (topic, 0) ->
  let broker := env_broker env in
  let end_offset := end_offset broker (topic, 0) in
  let offset := Z.max (beginning_offset broker (topic, 0)) (end_offset - 100000) in
  let window := take (Z.to_nat (end_offset - offset)) (fetch broker (topic, 0) offset) in
  let merchant_token := merchant_token_of auth_header in
  let rows := omap (kept_payload (derived_id merchant_token)) window in
  let filepath := ("data/" ++ (topic ++ "_" ++ py_str_int (env_now env)) ++ ".csv")%string in
  Forall exportable window ->
  export_csv_for_topic env auth_header topic w
  = (match env_to_csv env filepath rows with
     | Ok _ => Ok [("url", filepath)]
     | Raise e => Ok [("error", ("failed with: " ++ exn_msg e)%string)]
     end,
     {| dumps := dumps w;
        trace := trace w ++ hash_calls merchant_token ++ window_calls topic offset
                   ++ [Kafka KIterate] ++ flat_map decode_error window
                   ++ [Kafka KClose; ToCsv filepath rows] |}).
Proof.
  intros Hin Hne Hr Hb broker end_offset offset window merchant_token rows filepath Hall.
  unfold export_csv_for_topic.
  unfold mbind at 1, M_bind. rewrite merchant_id_of_derived.
  apply in_topics_In in Hin. rewrite Hin. simpl.
  unfold try_except, export_body.
  unfold mbind at 1, M_bind. rewrite (open_window_reachable env topic _ Hr Hb). simpl.
  unfold mbind at 1, M_bind. unfold kafka at 1. msimpl.
  rewrite iterate_export_consumer. simpl.
  rewrite export_loop_filters by exact Hall. simpl.
  destruct (String.eqb_spec topic "marketSituation") as [|_]; [contradiction|].
  fold broker end_offset offset window merchant_token rows filepath.
  destruct (env_to_csv env filepath rows) as [[]|e]; simpl;
    repeat rewrite <- app_assoc; reflexivity.
Qed.

(** C1, as the code has it. In an export of a topic other than the
    reshaped one, whose window holds records that decode to objects (or do
    not decode), the rows written are the payloads of the window that have
    no [merchant_id] field or whose [merchant_id] equals the id derived
    from the credential of the caller, in order. With a credential that id
    is a string and a record passes exactly when it has no [merchant_id]
    or its [merchant_id] is that string; without a credential the id is
    [None] and a record passes exactly when it has no [merchant_id] or its
    [merchant_id] is null. *)
Theorem export_filters_on_merchant_id :
  forall (env : Env) (auth_header : option string) (topic : string) (w : World),
    In topic topics ->
    topic <> "marketSituation" ->
    reachable (env_broker env) = true ->
    0 <= beginning_offset (env_broker env) (topic, 0) ->
    let broker := env_broker env in
    let end_offset := end_offset broker (topic, 0) in
    let offset := Z.max (beginning_offset broker (topic, 0)) (end_offset - 100000) in
    let window := take (Z.to_nat (end_offset - offset)) (fetch broker (topic, 0) offset) in
    let merchant_id := derived_id (merchant_token_of auth_header) in
    let rows := omap (kept_payload merchant_id) window in
    Forall exportable window ->
    (exists filepath,
       In (ToCsv filepath rows) (trace (export_csv_for_topic env auth_header topic w).2))
    /\ (merchant_id_of (merchant_token_of auth_header) w).1 = Ok merchant_id
    /\ (forall msgs w1,
          (export_loop end_offset merchant_id offset (fetch broker (topic, 0) offset) msgs w1).1
          = Ok (msgs ++ rows))
    /\ (forall msg fields, msg_value msg = Ok (JObj fields) ->
          (kept_payload merchant_id msg = Some (JObj fields) <-> keeps merchant_id fields = true)
          /\ (kept_payload merchant_id msg = None <-> keeps merchant_id fields = false))
    /\ (forall fields p, merchant_id = Some p ->
          (keeps merchant_id fields = true
           <-> dict_get "merchant_id" fields = None
               \/ dict_get "merchant_id" fields = Some (JStr p)))
    /\ (forall fields, auth_header = None ->
          merchant_id = None
          /\ (keeps merchant_id fields = true
              <-> dict_get "merchant_id" fields = None
                  \/ dict_get "merchant_id" fields = Some JNull)).
Proof.
  intros env auth_header topic w Hin Hne Hr Hb broker end_offset offset window merchant_id rows Hall.
  split; [|split; [|split; [|split; [|split]]]].
  - eexists. rewrite (export_csv_rows env auth_header topic w Hin Hne Hr Hb Hall).
    cbn [snd trace]. rewrite !in_app_iff. do 5 right. right. left. reflexivity.
  - now rewrite merchant_id_of_derived.
  - intros msgs w1. now rewrite (export_loop_filters _ _ _ _ _ _ Hall).
  - intros msg fields Hv. unfold kept_payload. rewrite Hv.
    destruct (keeps merchant_id fields); split; split; congruence.
  - intros fields p ->. apply keeps_with_id.
  - intros fields ->. split; [reflexivity|]. apply keeps_without_id.
Qed.

Lemma sample_window_exportable :
  Forall exportable
    (take (Z.to_nat (4 - Z.max 0 (4 - 100000))) (drop (Z.to_nat (Z.max 0 (4 - 100000))) sample_log)).
Proof. repeat constructor. Defined.

Lemma export_filter_witness :
  exists filepath,
    In (ToCsv filepath
          [ JObj [("offer_id", JInt 1)];
            JObj [("offer_id", JInt 2);
                  ("merchant_id", JStr "PwiqzhIu4jaEMsHKI6BJvGQLr78A/fM6UkKfOLoS2/k=")] ])
       (trace (export_csv_for_topic sample_env (Some "Bearer token-1") "addOffer" sample_world).2).
Proof.
  destruct (export_filters_on_merchant_id sample_env (Some "Bearer token-1") "addOffer" sample_world)
    as (H & _).
  - simpl. tauto.
  - discriminate.
  - reflexivity.
  - simpl. lia.
  - exact sample_window_exportable.
  - exact H.
Defined.

(** C1 as stated fails in its last part: a request without a credential
    is sent a record that has a [merchant_id] field, when that field is
    null. *)
Lemma export_without_credential_keeps_null_merchant_id :
  msg_value offer_with_null_merchant = Ok (JObj [("offer_id", JInt 4); ("merchant_id", JNull)])
  /\ dict_has "merchant_id" [("offer_id", JInt 4); ("merchant_id", JNull)] = true
  /\ (merchant_id_of (merchant_token_of None) sample_world).1 = Ok None
  /\ export_csv_for_topic sample_env None "addOffer" sample_world
     = (Ok [("url", "data/addOffer_1500000000.csv")],
        {| dumps := dumps sample_world;
           trace := window_calls "addOffer" 0
                    ++ [ Kafka KIterate; Kafka KClose;
                         ToCsv "data/addOffer_1500000000.csv"
                           [ JObj [("offer_id", JInt 1)];
                             JObj [("offer_id", JInt 4); ("merchant_id", JNull)] ] ] |}).
Proof. vm_compute. repeat split; reflexivity. Qed.

(** C7. A request for a topic outside the list answers
    [{'error': 'unknown topic'}] and makes no call to Kafka: the only
    thing it may have done is hash the token. A request for a topic of the
    list never gets that answer: it gets a url, or an error that starts
    with 'failed with: '. *)
Theorem unknown_topic_error_without_reader :
  forall (env : Env) (auth_header : option string) (topic : string) (w : World),
    (~ In topic topics ->
       export_csv_for_topic env auth_header topic w
       = (Ok [("error", "unknown topic")],
          {| dumps := dumps w;
             trace := trace w ++ hash_calls (merchant_token_of auth_header) |})
       /\ Forall (fun e => ~ is_kafka_call e) (hash_calls (merchant_token_of auth_header)))
    /\ (In topic topics ->
          (export_csv_for_topic env auth_header topic w).1 <> Ok [("error", "unknown topic")]
          /\ exists detail,
               (export_csv_for_topic env auth_header topic w).1 = Ok [("url", detail)]
               \/ (export_csv_for_topic env auth_header topic w).1
                  = Ok [("error", ("failed with: " ++ detail)%string)]).
Proof.
  intros env auth_header topic w. split.
  - intros Hout. split.
    + unfold export_csv_for_topic. unfold mbind, M_bind. rewrite merchant_id_of_derived.
      destruct (in_topics topic) eqn:E; [apply in_topics_In in E; contradiction|].
      reflexivity.
    + unfold hash_calls. destruct (merchant_token_of auth_header) as [token|];
        [destruct (truthy token)|]; repeat constructor; simpl; tauto.
  - intros Hin. apply in_topics_In in Hin.
    assert (H : exists detail,
               (export_csv_for_topic env auth_header topic w).1 = Ok [("url", detail)]
               \/ (export_csv_for_topic env auth_header topic w).1
                  = Ok [("error", ("failed with: " ++ detail)%string)]).
    { unfold export_csv_for_topic. unfold mbind, M_bind. rewrite merchant_id_of_derived.
      rewrite Hin. simpl. unfold try_except.
      destruct (export_body env topic _ _) as [[r|e] w'] eqn:E.
      - apply export_body_url in E as [filepath ->]. exists filepath. now left.
      - exists (exn_msg e). now right. }
    split; [|exact H].
    destruct H as [detail [-> | ->]]; simpl; intros [=].
Qed.

Lemma unknown_topic_witness :
  export_csv_for_topic sample_env (Some "Bearer token-1") "nope" sample_world
  = (Ok [("error", "unknown topic")],
     {| dumps := dumps sample_world;
        trace := trace sample_world ++ hash_calls (merchant_token_of (Some "Bearer token-1")) |})
  /\ (export_csv_for_topic sample_env None "addOffer" sample_world).1
     <> Ok [("error", "unknown topic")].
Proof.
  destruct (unknown_topic_error_without_reader sample_env (Some "Bearer token-1") "nope" sample_world)
    as [Hout _].
  destruct (unknown_topic_error_without_reader sample_env None "addOffer" sample_world)
    as [_ Hin].
  split.
  - apply Hout. simpl. intros H. repeat (destruct H as [H|H]; [discriminate|]). exact H.
  - apply Hin. simpl. tauto.
Defined.

(** ** The token of the Authorization header *)

Lemma append_cons (c : ascii) (a b : string) : (String c a ++ b)%string = String c (a ++ b)%string.
Proof. reflexivity. Qed.

Lemma append_nil_l (b : string) : ("" ++ b)%string = b.
Proof. reflexivity. Qed.

Lemma string_of_list_ascii_snoc (l : list ascii) (c : ascii) (s : string) :
  (string_of_list_ascii (l ++ [c]) ++ s)%string = (string_of_list_ascii l ++ String c s)%string.
Proof.
  induction l as [|a l IH]; simpl; [reflexivity|].
  now rewrite !append_cons, IH.
Qed.

Lemma string_append_assoc (a b c : string) : ((a ++ b) ++ c)%string = (a ++ (b ++ c))%string.
Proof.
  induction a as [|x a IH]; [reflexivity|].
  now rewrite !append_cons, IH.
Qed.

Lemma string_append_nil_r (a : string) : (a ++ "")%string = a.
Proof.
  induction a as [|x a IH]; [reflexivity|].
  now rewrite append_cons, IH.
Qed.

Lemma split_from_not_nil sep s : forall cur, split_from sep cur s <> [].
Proof.
  induction s as [|c s IH]; intros cur; simpl; [discriminate|].
  destruct (Ascii.eqb c sep); [discriminate | apply IH].
Qed.

Lemma last_cons_not_nil {A} (x d : A) (l : list A) : l <> [] -> List.last (x :: l) d = List.last l d.
Proof. destruct l; [congruence | reflexivity]. Qed.

(** The last piece of a split holds no separator and is a suffix of the
    string that starts right after a separator, or is the whole string. *)
Lemma last_split_from sep s : forall cur,
  ~ In sep cur ->
  exists pre,
    (string_of_list_ascii (rev cur) ++ s)%string
    = (pre ++ List.last (split_from sep cur s) "")%string
    /\ ~ In sep (list_ascii_of_string (List.last (split_from sep cur s) ""))
    /\ (pre = "" \/ exists pre', pre = (pre' ++ String sep "")%string).
Proof.
  induction s as [|c s IH]; intros cur Hcur.
  - exists "". simpl. rewrite string_append_nil_r, list_ascii_of_string_of_list_ascii.
    split; [reflexivity|]. split; [now rewrite <- in_rev | now left].
  - simpl. destruct (Ascii.eqb_spec c sep) as [->|Hne].
    + rewrite last_cons_not_nil by apply split_from_not_nil.
      destruct (IH [] (fun H => H)) as (pre & Heq & Hno & Hpre).
      simpl in Heq. rewrite append_nil_l in Heq.
      exists (string_of_list_ascii (rev cur) ++ String sep pre)%string.
      split; [now rewrite string_append_assoc, append_cons, <- Heq|].
      split; [exact Hno|]. right.
      destruct Hpre as [->|[pre' ->]].
      * now exists (string_of_list_ascii (rev cur)).
      * exists (string_of_list_ascii (rev cur) ++ String sep pre')%string.
        rewrite string_append_assoc. reflexivity.
    + destruct (IH (c :: cur)) as (pre & Heq & Hno & Hpre).
      { simpl. intros [H|H]; [congruence | contradiction]. }
      exists pre. simpl in Heq. rewrite string_of_list_ascii_snoc in Heq. auto.
Qed.

Lemma last_split_from_trailing sep s : forall cur,
  List.last (split_from sep cur (s ++ String sep "")%string) "" = "".
Proof.
  induction s as [|c s IH]; intros cur; simpl.
  - now rewrite Ascii.eqb_refl.
  - destruct (Ascii.eqb c sep); [|apply IH].
    rewrite last_cons_not_nil by apply split_from_not_nil. apply IH.
Qed.

Lemma truthy_token_of h : truthy h = true ->
  merchant_token_of (Some h) = Some (List.last (py_split " " h) "").
Proof. intros H. simpl. now rewrite H. Qed.

(** C10. The token taken from a non-empty Authorization header is the part
    of the header after its last space (the whole header when it has no
    space). When the header is empty or ends with a space there is no
    token to hash: [calculate_id] is not called, the derived id is [None]
    and the request behaves as one without the header. *)
Theorem empty_bearer_token_is_no_credential :
  forall (env : Env) (h : string) (topic : string) (w : World),
    (truthy h = true ->
       exists token pre,
         merchant_token_of (Some h) = Some token
         /\ h = (pre ++ token)%string
         /\ ~ In " "%char (list_ascii_of_string token)
         /\ (pre = "" \/ exists pre', pre = (pre' ++ " ")%string))
    /\ (h = "" \/ (exists h', h = (h' ++ " ")%string) ->
          merchant_id_of (merchant_token_of (Some h)) w = (Ok None, w)
          /\ merchant_id_of (merchant_token_of (Some h)) w
             = merchant_id_of (merchant_token_of None) w
          /\ export_csv_for_topic env (Some h) topic w
             = export_csv_for_topic env None topic w).
Proof.
  intros env h topic w. split.
  - intros Hh. rewrite (truthy_token_of h Hh).
    destruct (last_split_from " " h [] (fun H => H)) as (pre & Heq & Hno & Hpre).
    exists (List.last (py_split " " h) ""), pre. auto.
  - intros Hempty.
    assert (Hid : merchant_id_of (merchant_token_of (Some h)) w = (Ok None, w)).
    { destruct Hempty as [->|[h' ->]]; [reflexivity|].
      unfold merchant_token_of.
      destruct (truthy (h' ++ " ")); [|reflexivity].
      unfold py_split. rewrite last_split_from_trailing. reflexivity. }
    split; [exact Hid|]. split; [exact Hid|].
    unfold export_csv_for_topic. unfold mbind, M_bind. now rewrite Hid.
Qed.

Lemma empty_bearer_token_witness :
  (exists token pre,
     merchant_token_of (Some "Bearer abc") = Some token
     /\ "Bearer abc" = (pre ++ token)%string
     /\ ~ In " "%char (list_ascii_of_string token)
     /\ (pre = "" \/ exists pre', pre = (pre' ++ " ")%string))
  /\ export_csv_for_topic sample_env (Some "Bearer ") "addOffer" sample_world
     = export_csv_for_topic sample_env None "addOffer" sample_world.
Proof.
  split.
  - apply (empty_bearer_token_is_no_credential sample_env "Bearer abc" "addOffer" sample_world).
    reflexivity.
  - apply (empty_bearer_token_is_no_credential sample_env "Bearer " "addOffer" sample_world).
    right. exists "Bearer". reflexivity.
Defined.

(** ** The hasher *)

Lemma b2a_alphabet (i : Z) : In (Base64.b2a i) Base64.alphabet.
Proof.
  unfold Base64.b2a. apply nth_In.
  change 0x3f with (Z.ones 6). rewrite Z.land_ones by lia.
  pose proof (Z.mod_pos_bound i (2 ^ 6) ltac:(lia)) as Hb.
  change (length Base64.alphabet) with 64%nat. lia.
Qed.

Lemma calculate_id_shape (token : string) :
  String.length (calculate_id token) = 44%nat
  /\ Forall base64_char (list_ascii_of_string (calculate_id token)).
Proof.
  unfold calculate_id, Sha256.digest.
  generalize (Sha256.blocks (length (Sha256.pad (encode_utf8 token))) Sha256.H0
                (Sha256.pad (encode_utf8 token))).
  intros h. rewrite list_ascii_of_string_of_list_ascii.
  cbv [Sha256.be32 app Base64.b64encode].
  split; [reflexivity|].
  repeat (apply List.Forall_cons; [first [left; apply b2a_alphabet | right; reflexivity]|]).
  apply List.Forall_nil.
Qed.

(** C9. The id derived from a credential is a function of the credential
    alone: the same header gives the same id in any two states of the
    process; deriving it leaves the buffers as they are and adds nothing
    to the trace but the call of [calculate_id], made with the token when
    the token is not empty. [calculate_id] gives the base64 text of the
    SHA-256 digest of the UTF-8 bytes of the token: 44 characters of the
    base64 alphabet. Without a header the id is [None]. *)
Theorem calculate_id_is_pure :
  forall (auth_header : option string) (w1 w2 : World),
    (merchant_id_of (merchant_token_of auth_header) w1).1
    = (merchant_id_of (merchant_token_of auth_header) w2).1
    /\ (merchant_id_of (merchant_token_of auth_header) w1).1
       = Ok (derived_id (merchant_token_of auth_header))
    /\ dumps (merchant_id_of (merchant_token_of auth_header) w1).2 = dumps w1
    /\ trace (merchant_id_of (merchant_token_of auth_header) w1).2
       = trace w1 ++ hash_calls (merchant_token_of auth_header)
    /\ (forall token, truthy token = true ->
          derived_id (Some token) = Some (calculate_id token)
          /\ hash_calls (Some token) = [Hashed token])
    /\ (forall token,
          calculate_id token
          = string_of_list_ascii (Base64.b64encode (Sha256.digest (encode_utf8 token)))
          /\ String.length (calculate_id token) = 44%nat
          /\ Forall base64_char (list_ascii_of_string (calculate_id token)))
    /\ merchant_id_of (merchant_token_of None) w1 = (Ok None, w1)
    /\ calculate_id "abc" = "ungWv48Bz+pBQUDeXa4iI7ADYaOWF3qctBD/YfIAFa0=".
Proof.
  intros auth_header w1 w2.
  split; [now rewrite !merchant_id_of_derived|].
  split; [now rewrite merchant_id_of_derived|].
  split; [now rewrite merchant_id_of_derived|].
  split; [now rewrite merchant_id_of_derived|].
  split; [intros token H; unfold derived_id, hash_calls; now rewrite H|].
  split; [intros token; split; [reflexivity | apply calculate_id_shape]|].
  split; [reflexivity | vm_compute; reflexivity].
Qed.

Lemma calculate_id_witness :
  derived_id (Some "token-1") = Some (calculate_id "token-1")
  /\ hash_calls (Some "token-1") = [Hashed "token-1"].
Proof.
  apply (calculate_id_is_pure None sample_world sample_world). reflexivity.
Defined.

(** ** Startup *)

Section Startup.
Variable broker : Broker.

Lemma fold_insert_lookup {K V T : Type} `{Countable K} (k : T -> K) (v : T -> V) (ts : list T) :
  (forall a b, k a = k b -> v a = v b) ->
  forall (m : gmap K V) (t : T),
    In t ts \/ m !! k t = Some (v t) ->
    fold_left (fun m t => <[k t := v t]> m) ts m !! k t = Some (v t).
Proof.
  intros Hkv. induction ts as [|a ts IH]; intros m t Ht; simpl.
  - destruct Ht as [[]|Ht]. exact Ht.
  - apply IH. destruct Ht as [[->|Ht]|Ht].
    + right. apply lookup_insert_eq.
    + now left.
    + right. destruct (decide (k a = k t)) as [Heq|Hne].
      * rewrite Heq, lookup_insert_eq. f_equal. now apply Hkv.
      * now rewrite lookup_insert_ne.
Qed.

Lemma record_end_offsets_run ts : forall consumer end_offsets w,
  exists consumer',
    record_end_offsets broker ts consumer end_offsets w
    = (Ok (consumer',
           fold_left (fun m topic => <[topic := end_offset broker (topic, 0)]> m) ts end_offsets),
       {| dumps := fold_left (fun ds topic => dict_set topic (deque_new 100) ds) ts (dumps w);
          trace := trace w ++ flat_map end_calls ts |}).
Proof.
  induction ts as [|topic rest IH]; intros consumer end_offsets w.
  - exists consumer. simpl. rewrite app_nil_r. now destruct w.
  - simpl. msimpl. unfold seek_to_end, seek_all, assign. simpl.
    erewrite position_lookup; [|simpl; left|simpl; apply lookup_insert_eq].
    match goal with |- context [record_end_offsets broker rest ?c ?e ?w1] =>
      destruct (IH c e w1) as [consumer' ->] end.
    exists consumer'. simpl. repeat rewrite <- app_assoc. reflexivity.
Qed.

Lemma seek_back_run ts (end_offsets : gmap string Z) : forall consumer w,
  (forall topic, In topic ts ->
     end_offsets !! topic = Some (end_offset broker (topic, 0))
     /\ (topic, 0) ∈ assignment consumer) ->
  seek_back ts end_offsets consumer w
  = (Ok {| assignment := assignment consumer;
           positions := fold_left (fun m topic => <[(topic, 0) := seek_back_target broker topic]> m)
                          ts (positions consumer) |},
     {| dumps := dumps w; trace := trace w ++ map (seek_back_call broker) ts |}).
Proof.
  induction ts as [|topic rest IH]; intros consumer w Hts.
  - simpl. rewrite app_nil_r. destruct consumer, w. reflexivity.
  - destruct (Hts topic (or_introl eq_refl)) as [Hend Hin].
    simpl. rewrite Hend. msimpl.
    rewrite seek_assigned; [|lia|exact Hin].
    rewrite IH.
    + simpl. unfold seek_back_call, seek_back_target. rewrite <- app_assoc. reflexivity.
    + intros t Ht. simpl. apply Hts. now right.
Qed.

End Startup.

(** C5. [__init__] first goes through the topics, assigning each
    partition alone, seeking to its end and recording the position as its
    end offset; only then it assigns all partitions and seeks each to
    [max(0, end offset - 100)]. It succeeds, leaves an empty buffer of
    capacity 100 per topic, and the consumer it hands to the ingestion
    loop reads every topic from that position: at most 100 records lie
    before the end recorded, and the buffer of a topic is filled with the
    accepted ones of the records read from there. *)
Theorem startup_seeks_back_100 :
  forall (broker : Broker) (w : World),
    reachable broker = true ->
    exists (first consumer : KafkaConsumer) (end_offsets : gmap string Z) (w1 w' : World),
      record_end_offsets broker topics {| assignment := []; positions := ∅ |} ∅
        {| dumps := []; trace := trace w ++ [Kafka KOpen] |}
      = (Ok (first, end_offsets), w1)
      /\ dumps w1 = empty_dumps
      /\ trace w1 = (trace w ++ [Kafka KOpen]) ++ flat_map end_calls topics
      /\ KafkaHandler_init broker w = (Ok consumer, w')
      /\ dumps w' = empty_dumps
      /\ trace w' = (trace w1 ++ [Kafka (KAssign all_partitions)])
                    ++ map (seek_back_call broker) topics
      /\ forall topic, In topic topics ->
           end_offsets !! topic = Some (end_offset broker (topic, 0))
           /\ positions consumer !! (topic, 0) = Some (Z.max 0 (end_offset broker (topic, 0) - 100))
           /\ iterate broker consumer (topic, 0)
              = Ok (fetch broker (topic, 0) (Z.max 0 (end_offset broker (topic, 0) - 100)))
           /\ (0 <= end_offset broker (topic, 0) ->
                 0 <= end_offset broker (topic, 0) - Z.max 0 (end_offset broker (topic, 0) - 100) <= 100)
           /\ (forall stream,
                 filter (fun msg => msg_topic msg = topic) stream
                 = fetch broker (topic, 0) (Z.max 0 (end_offset broker (topic, 0) - 100)) ->
                 exists d,
                   dict_get topic (dumps (run stream w').2) = Some d
                   /\ items d
                      = lastn 100 (omap accepted
                          (fetch broker (topic, 0) (Z.max 0 (end_offset broker (topic, 0) - 100))))).
Proof.
  intros broker w Hr.
  destruct (record_end_offsets_run broker topics {| assignment := []; positions := ∅ |} ∅
              {| dumps := []; trace := trace w ++ [Kafka KOpen] |}) as [first Hfirst].
  set (end_offsets := fold_left (fun m topic => <[topic := end_offset broker (topic, 0)]> m)
                        topics (∅ : gmap string Z)) in *.
  assert (Hend : forall topic, In topic topics ->
            end_offsets !! topic = Some (end_offset broker (topic, 0))).
  { intros topic Hin.
    apply (fold_insert_lookup (fun t : string => t) (fun t => end_offset broker (t, 0)));
      [now intros a b -> | now left]. }
  assert (Hassigned : forall topic, In topic topics ->
            (topic, 0) ∈ assignment (assign all_partitions first)).
  { intros topic Hin. simpl. apply list_elem_of_In. unfold all_partitions.
    apply in_map_iff. exists topic. split; [reflexivity | exact Hin]. }
  set (w1 := {| dumps := fold_left (fun ds topic => dict_set topic (deque_new 100) ds) topics [];
                trace := (trace w ++ [Kafka KOpen]) ++ flat_map end_calls topics |}) in *.
  pose proof (seek_back_run broker topics end_offsets (assign all_partitions first)
                {| dumps := dumps w1; trace := trace w1 ++ [Kafka (KAssign all_partitions)] |}
                (fun topic Hin => conj (Hend topic Hin) (Hassigned topic Hin))) as Hsecond.
  cbn [dumps trace assignment assign] in Hsecond.
  eexists first, _, end_offsets, w1, _.
  split; [exact Hfirst|]. split; [reflexivity|]. split; [reflexivity|].
  split.
  { unfold KafkaHandler_init. unfold mbind at 1, M_bind. unfold kafka at 1.
    msimpl. unfold KafkaConsumer_new. rewrite Hr. cbn [dumps trace].
    rewrite Hfirst. fold all_partitions. cbn [dumps trace]. exact Hsecond. }
  split; [reflexivity|]. split; [reflexivity|].
  intros topic Hin.
  assert (Hpos : fold_left (fun m topic => <[(topic, 0) := seek_back_target broker topic]> m)
                   topics (positions (assign all_partitions first)) !! (topic, 0)
                 = Some (Z.max 0 (end_offset broker (topic, 0) - 100))).
  { apply (fold_insert_lookup (fun t : string => (t, 0)) (seek_back_target broker));
      [now intros a b [= ->] | now left]. }
  split; [apply Hend, Hin|]. split; [exact Hpos|]. split.
  { unfold iterate. erewrite position_lookup; [reflexivity|apply (Hassigned topic Hin)|exact Hpos]. }
  split; [lia|].
  intros stream Hstream.
  destruct (run_from_empty_dumps stream
              {| dumps := dumps w1; trace := (trace w1 ++ [Kafka (KAssign all_partitions)])
                                             ++ map (seek_back_call broker) topics |}
              topic eq_refl Hin) as (d & Hd & _ & Hitems).
  exists d. split; [exact Hd|].
  rewrite Hitems. unfold accepted_for. now rewrite Hstream.
Qed.

Lemma startup_witness :
  exists (first consumer : KafkaConsumer) (end_offsets : gmap string Z) (w1 w' : World),
    KafkaHandler_init sample_broker sample_world = (Ok consumer, w')
    /\ dumps w' = empty_dumps
    /\ end_offsets !! "addOffer" = Some 4
    /\ positions consumer !! ("addOffer", 0) = Some 0.
Proof.
  destruct (startup_seeks_back_100 sample_broker sample_world eq_refl)
    as (first & consumer & end_offsets & w1 & w' & _ & _ & _ & Hinit & Hdumps & _ & Htopics).
  destruct (Htopics "addOffer") as (Hend & Hpos & _); [simpl; tauto|].
  exists first, consumer, end_offsets, w1, w'. auto.
Defined.


(** * Further properties *)

(** ** The ingestion loop: what it keeps and what it emits *)

Lemma capacities_set (k : string) (d d' : deque) (ds : list (string * deque)) :
  dict_get k ds = Some d -> maxlen d' = maxlen d ->
  capacities (dict_set k d' ds) = capacities ds.
Proof.
  unfold capacities. induction ds as [|[k0 d0] ds IH]; simpl; [discriminate|].
  destruct (String.eqb k k0) eqn:E; simpl.
  - apply String.eqb_eq in E. subst k0. intros [= ->] Hm. now rewrite Hm.
  - intros Hget Hm. now rewrite IH.
Qed.

Lemma run_body_capacities msg w :
  capacities (dumps (run_body msg w).2) = capacities (dumps w).
Proof.
  rewrite run_body_dumps.
  destruct (accepted msg) as [o|]; [|reflexivity].
  destruct (dict_get (msg_topic msg) (dumps w)) as [d|] eqn:Ed; [|reflexivity].
  now apply (capacities_set _ d).
Qed.

Lemma run_body_trace msg w :
  exists evs, trace (run_body msg w).2 = trace w ++ evs /\ Forall is_emission evs.
Proof.
  destruct (accepted msg) as [o|] eqn:E.
  - rewrite (run_body_accepted _ _ _ E).
    destruct (dict_get (msg_topic msg) (dumps w)); eexists; split; try reflexivity;
      repeat constructor.
  - destruct (run_body_not_accepted msg w E) as [->|[e ->]].
    + exists []. now rewrite app_nil_r.
    + eexists; split; [reflexivity | repeat constructor].
Qed.

Lemma run_capacities stream : forall w,
  capacities (dumps (run stream w).2) = capacities (dumps w).
Proof.
  induction stream as [|msg rest IH]; intros w; [reflexivity|].
  now rewrite run_cons, IH, run_body_capacities.
Qed.

Lemma run_trace stream : forall w,
  exists evs, trace (run stream w).2 = trace w ++ evs /\ Forall is_emission evs.
Proof.
  induction stream as [|msg rest IH]; intros w.
  - exists []. simpl. now rewrite app_nil_r.
  - rewrite run_cons. destruct (IH (run_body msg w).2) as (evs & Ht & Hevs).
    destruct (run_body_trace msg w) as (evs0 & Ht0 & Hevs0).
    exists (evs0 ++ evs). split.
    + now rewrite Ht, Ht0, app_assoc.
    + apply Forall_app. auto.
Qed.

(** X1. The ingestion loop never raises, whatever the records: every
    exception of a turn is caught. It adds no buffer, drops none and
    changes no capacity, and all it adds to the trace are broadcasts and
    prints. *)
Theorem run_never_raises_and_keeps_buffers :
  forall (stream : list ConsumerRecord) (w : World),
    (run stream w).1 = Ok tt
    /\ capacities (dumps (run stream w).2) = capacities (dumps w)
    /\ exists evs, trace (run stream w).2 = trace w ++ evs /\ Forall is_emission evs.
Proof.
  intros stream w. split; [apply run_ok|]. split; [apply run_capacities | apply run_trace].
Qed.

Lemma broadcast_on_app t tr1 tr2 :
  broadcast_on t (tr1 ++ tr2) = broadcast_on t tr1 ++ broadcast_on t tr2.
Proof. unfold broadcast_on. apply omap_app. Qed.

Lemma dict_has_run_body t msg w :
  dict_has t (dumps (run_body msg w).2) = dict_has t (dumps w).
Proof.
  unfold dict_has.
  pose proof (run_dumps_topic t [msg] w) as H. rewrite run_cons in H. simpl in H.
  rewrite H. now destruct (dict_get t (dumps w)).
Qed.

Lemma accepted_for_one t msg :
  accepted_for t [msg]
  = match accepted msg with
    | Some o => if String.eqb (msg_topic msg) t then [o] else []
    | None => []
    end.
Proof.
  rewrite accepted_for_cons. unfold accepted_for. rewrite filter_nil. simpl.
  destruct (decide (msg_topic msg = t)) as [Heq|Hne].
  - rewrite Heq, String.eqb_refl. reflexivity.
  - apply String.eqb_neq in Hne. rewrite Hne. now destruct (accepted msg).
Qed.

Lemma broadcast_on_run_body t msg w :
  broadcast_on t (trace (run_body msg w).2)
  = broadcast_on t (trace w)
    ++ (if dict_has t (dumps w) then accepted_for t [msg] else []).
Proof.
  rewrite accepted_for_one.
  destruct (accepted msg) as [o|] eqn:E.
  - rewrite (run_body_accepted _ _ _ E). unfold dict_has.
    destruct (String.eqb (msg_topic msg) t) eqn:Et.
    + apply String.eqb_eq in Et. subst t.
      destruct (dict_get (msg_topic msg) (dumps w)); simpl;
        rewrite broadcast_on_app; simpl; rewrite ?String.eqb_refl, ?app_nil_r; reflexivity.
    + destruct (dict_get (msg_topic msg) (dumps w)); simpl;
        rewrite broadcast_on_app; simpl; rewrite ?Et; simpl;
        destruct (dict_get t (dumps w)); now rewrite ?app_nil_r.
  - replace (if dict_has t (dumps w) then [] else []) with (@nil Output)
      by now destruct (dict_has t (dumps w)).
    rewrite app_nil_r.
    destruct (run_body_not_accepted msg w E) as [->|[e ->]]; [reflexivity|].
    simpl. rewrite broadcast_on_app. simpl. now rewrite app_nil_r.
Qed.

Lemma accepted_for_app t l1 l2 :
  accepted_for t (l1 ++ l2) = accepted_for t l1 ++ accepted_for t l2.
Proof. unfold accepted_for. now rewrite filter_app, omap_app. Qed.

Lemma broadcast_on_run t stream : forall w,
  broadcast_on t (trace (run stream w).2)
  = broadcast_on t (trace w)
    ++ (if dict_has t (dumps w) then accepted_for t stream else []).
Proof.
  induction stream as [|msg rest IH]; intros w.
  - simpl. destruct (dict_has t (dumps w)); now rewrite app_nil_r.
  - rewrite run_cons, IH, broadcast_on_run_body, dict_has_run_body.
    change (msg :: rest) with ([msg] ++ rest). rewrite accepted_for_app.
    destruct (dict_has t (dumps w)); now rewrite <- app_assoc.
Qed.

Lemma accepted_for_other_topics t stream :
  Forall (fun msg => msg_topic msg <> t) stream -> accepted_for t stream = [].
Proof.
  induction 1 as [|msg rest Hne _ IH]; [reflexivity|].
  rewrite accepted_for_cons. now destruct (decide (msg_topic msg = t)).
Qed.

Lemma empty_dumps_has t : In t topics -> dict_has t empty_dumps = true.
Proof. intros H. unfold dict_has. now rewrite (empty_dumps_get t H). Qed.

(** X2. From the buffers of [__init__], the outputs broadcast under the name
    of a topic are the accepted outputs of that topic in arrival order;
    further records only extend that sequence; and the buffer of the topic
    holds the last 100 outputs broadcast under its name. *)
Theorem broadcasts_in_arrival_order :
  forall (stream more : list ConsumerRecord) (w : World) (t : string),
    dumps w = empty_dumps ->
    In t topics ->
    broadcast_on t (trace w) = [] ->
    broadcast_on t (trace (run stream w).2) = accepted_for t stream
    /\ broadcast_on t (trace (run (stream ++ more) w).2)
       = broadcast_on t (trace (run stream w).2) ++ accepted_for t more
    /\ exists d : deque,
         dict_get t (dumps (run stream w).2) = Some d
         /\ items d = lastn 100 (broadcast_on t (trace (run stream w).2)).
Proof.
  intros stream more w t Hw Ht Hno.
  assert (Hb : forall s, broadcast_on t (trace (run s w).2) = accepted_for t s).
  { intros s. now rewrite broadcast_on_run, Hw, (empty_dumps_has t Ht), Hno. }
  split; [apply Hb|]. split; [now rewrite !Hb, accepted_for_app|].
  destruct (run_from_empty_dumps stream w t Hw Ht) as (d & Hd & _ & Hitems).
  exists d. split; [exact Hd|]. now rewrite Hb.
Qed.

Lemma broadcasts_witness :
  broadcast_on "buyOffer" (trace (run [record_404; record_200; record_plain] sample_world).2)
  = accepted_for "buyOffer" [record_404; record_200; record_plain].
Proof.
  apply (broadcasts_in_arrival_order [record_404; record_200; record_plain] [] sample_world "buyOffer").
  - reflexivity.
  - simpl. tauto.
  - reflexivity.
Defined.

(** X3. Records of other topics leave the buffer of a topic and what was
    broadcast under its name as they were. *)
Theorem records_touch_only_their_topic :
  forall (stream : list ConsumerRecord) (w : World) (t : string),
    Forall (fun msg => msg_topic msg <> t) stream ->
    dict_get t (dumps (run stream w).2) = dict_get t (dumps w)
    /\ broadcast_on t (trace (run stream w).2) = broadcast_on t (trace w).
Proof.
  intros stream w t Hall. pose proof (accepted_for_other_topics t stream Hall) as Hnone.
  split.
  - rewrite run_dumps_topic, Hnone. now destruct (dict_get t (dumps w)).
  - rewrite broadcast_on_run, Hnone. destruct (dict_has t (dumps w)); now rewrite app_nil_r.
Qed.

Lemma records_touch_witness :
  dict_get "addOffer" (dumps (run [record_404; record_200] sample_world).2)
  = dict_get "addOffer" (dumps sample_world)
  /\ broadcast_on "addOffer" (trace (run [record_404; record_200] sample_world).2)
     = broadcast_on "addOffer" (trace sample_world).
Proof.
  apply (records_touch_only_their_topic [record_404; record_200] sample_world "addOffer").
  repeat constructor; discriminate.
Defined.

(** X4. A record whose topic has no buffer changes no buffer and is not
    broadcast; when it would have been accepted, the [KeyError] of the
    lookup is printed. *)
Theorem record_of_unknown_topic_is_dropped :
  forall (msg : ConsumerRecord) (w : World),
    dict_get (msg_topic msg) (dumps w) = None ->
    dumps (run_body msg w).2 = dumps w
    /\ (forall t, broadcast_on t (trace (run_body msg w).2) = broadcast_on t (trace w))
    /\ (forall o, accepted msg = Some o ->
          run_body msg w
          = (Ok tt, {| dumps := dumps w;
                       trace := trace w ++ [Printed "error emit msg"
                                  (Exn KeyError ("'" ++ msg_topic msg ++ "'")%string)] |})).
Proof.
  intros msg w Hnone. split; [|split].
  - rewrite run_body_dumps, Hnone. now destruct (accepted msg).
  - intros t. rewrite broadcast_on_run_body, accepted_for_one.
    destruct (accepted msg) as [o|]; [|destruct (dict_has t (dumps w)); now rewrite app_nil_r].
    destruct (String.eqb (msg_topic msg) t) eqn:E.
    + apply String.eqb_eq in E. subst t. unfold dict_has. rewrite Hnone. now rewrite app_nil_r.
    + destruct (dict_has t (dumps w)); now rewrite app_nil_r.
  - intros o Ho. now rewrite (run_body_accepted _ _ _ Ho), Hnone.
Qed.

Lemma unknown_topic_record_witness :
  dumps (run_body record_unknown_topic sample_world).2 = dumps sample_world.
Proof.
  apply (record_of_unknown_topic_is_dropped record_unknown_topic sample_world). reflexivity.
Defined.

(** X5. A payload that decodes to null, a bool or a number is dropped with
    the [TypeError] of ['http_code' in msg_json] printed, which names the
    type of the payload. A payload that is a string, or a list, is
    accepted as it is unless ["http_code"] occurs in it (as a substring,
    as an element), in which case the indexing raises a [TypeError] and it
    is dropped. *)
Theorem payload_that_is_no_object :
  forall (msg : ConsumerRecord) (j : json) (w : World),
    msg_value msg = Ok j ->
    let output := {| out_topic := msg_topic msg; out_timestamp := msg_timestamp msg;
                     out_value := j |} in
    let printed e := (Ok tt, {| dumps := dumps w;
                                trace := trace w ++ [Printed "error emit msg" e] |}) in
    (scalar j ->
       accepted msg = None
       /\ run_body msg w
          = printed (type_error ("argument of type '" ++ type_name j
                                 ++ "' is not iterable")%string))
    /\ (forall s, j = JStr s ->
          if is_substring "http_code" s
          then accepted msg = None
               /\ exists e, exn_cls e = TypeError /\ run_body msg w = printed e
          else accepted msg = Some output)
    /\ (forall l, j = JList l ->
          if existsb (is_JStr "http_code") l
          then accepted msg = None
               /\ run_body msg w
                  = printed (type_error "list indices must be integers or slices, not str")
          else accepted msg = Some output).
Proof.
  intros msg j w Hv output printed. unfold accepted, run_body, printed. msimpl. rewrite Hv.
  split; [|split].
  - intros Hs. destruct j; try contradiction; split; reflexivity.
  - intros s ->. unfold http_code_rejects. simpl.
    destruct (is_substring "http_code" s); [split|]; try reflexivity.
    eexists. split; [|reflexivity]. reflexivity.
  - intros l ->. unfold http_code_rejects. simpl.
    destruct (existsb (is_JStr "http_code") l); [split|]; reflexivity.
Qed.

Lemma payload_no_object_witness :
  accepted record_number = None
  /\ run_body record_number sample_world
     = (Ok tt, {| dumps := dumps sample_world;
                  trace := trace sample_world
                           ++ [Printed "error emit msg"
                                 (type_error "argument of type 'int' is not iterable")] |}).
Proof.
  apply (payload_that_is_no_object record_number (JInt 5) sample_world eq_refl). exact I.
Defined.

(** ** Connect and status after ingestion *)

Lemma dict_keys_capacities (ds : list (string * deque)) :
  dict_keys ds = map fst (capacities ds).
Proof. unfold dict_keys, capacities. rewrite map_map. reflexivity. Qed.

Lemma topics_NoDup : NoDup topics.
Proof. refine (bool_decide_unpack _ _). vm_compute. exact I. Qed.

Lemma run_keys stream w : dumps w = empty_dumps -> dict_keys (dumps (run stream w).2) = topics.
Proof.
  intros Hw. rewrite dict_keys_capacities.
  now rewrite run_capacities, Hw.
Qed.

Lemma dict_get_entry {A} (k : string) (v : A) (ds : list (string * A)) :
  NoDup (dict_keys ds) -> In (k, v) ds -> dict_get k ds = Some v.
Proof.
  unfold dict_keys. induction ds as [|[k0 v0] ds IH]; simpl; [contradiction|].
  intros Hnd [[= -> ->]|Hin].
  - now rewrite String.eqb_refl.
  - apply NoDup_cons in Hnd as [Hk0 Hnd].
    destruct (String.eqb k k0) eqn:E; [|auto].
    apply String.eqb_eq in E. subst k0. exfalso. apply Hk0.
    apply list_elem_of_In, in_map_iff. now exists (k, v).
Qed.

Lemma dumps_after_run stream w :
  dumps w = empty_dumps ->
  dumps (run stream w).2
  = map (fun t => (t, {| maxlen := 100; items := lastn 100 (accepted_for t stream) |})) topics.
Proof.
  intros Hw. pose proof (run_keys stream w Hw) as Hkeys.
  assert (Hnd : NoDup (dict_keys (dumps (run stream w).2))) by (rewrite Hkeys; apply topics_NoDup).
  rewrite <- Hkeys. unfold dict_keys. rewrite map_map.
  rewrite <- (map_id (dumps (run stream w).2)) at 1.
  apply map_ext_in. intros [t d] Hin. simpl.
  assert (Ht : In t topics).
  { rewrite <- Hkeys. unfold dict_keys. apply in_map_iff. now exists (t, d). }
  destruct (run_from_empty_dumps stream w t Hw Ht) as (d' & Hd' & Hmax & Hitems).
  rewrite (dict_get_entry t d _ Hnd Hin) in Hd'. injection Hd' as <-.
  destruct d as [m its]. simpl in *. now subst.
Qed.

Lemma on_connect_snapshots w :
  NoDup (dict_keys (dumps w)) ->
  on_connect w = (Ok tt, {| dumps := dumps w; trace := trace w ++ map snapshot (dumps w) |}).
Proof.
  intros Hnd. unfold on_connect. msimpl.
  destruct (dumps w) as [|entry rest] eqn:Ed.
  - simpl. rewrite app_nil_r. destruct w; simpl in *; now subst.
  - rewrite <- Ed. rewrite (emit_dumps_suffix (dumps w) [] w); [reflexivity|reflexivity|].
    simpl. now rewrite Ed.
Qed.

(** X6. A subscriber that connects after the ingestion of a stream is sent,
    for every topic in the order of the topic list, the last 100 accepted
    outputs of that topic in arrival order, and nothing is changed. *)
Theorem connect_after_run_replays_last_100 :
  forall (stream : list ConsumerRecord) (w : World),
    dumps w = empty_dumps ->
    on_connect (run stream w).2
    = (Ok tt,
       {| dumps := dumps (run stream w).2;
          trace := trace (run stream w).2
                   ++ map (fun t => Emit t (lastn 100 (accepted_for t stream))) topics |}).
Proof.
  intros stream w Hw. rewrite on_connect_snapshots.
  - rewrite (dumps_after_run stream w Hw) at 2. rewrite map_map. reflexivity.
  - rewrite (run_keys stream w Hw). apply topics_NoDup.
Qed.

Lemma connect_after_run_witness :
  on_connect (run [record_404; record_200; record_plain] sample_world).2
  = (Ok tt,
     {| dumps := dumps (run [record_404; record_200; record_plain] sample_world).2;
        trace := trace (run [record_404; record_200; record_plain] sample_world).2
                 ++ map (fun t => Emit t (lastn 100
                             (accepted_for t [record_404; record_200; record_plain]))) topics |}).
Proof.
  apply (connect_after_run_replays_last_100 [record_404; record_200; record_plain] sample_world).
  reflexivity.
Defined.

Lemma dict_set_fresh {A} (k : string) (v : A) (d : list (string * A)) :
  ~ In k (dict_keys d) -> dict_set k v d = d ++ [(k, v)].
Proof.
  unfold dict_keys. induction d as [|[k0 v0] d IH]; simpl; [reflexivity|].
  intros Hnot. destruct (String.eqb k k0) eqn:E.
  - apply String.eqb_eq in E. subst. tauto.
  - rewrite IH; tauto.
Qed.

Lemma last_lastn {A} (n : nat) (l : list A) : (0 < n)%nat -> last (lastn n l) = last l.
Proof.
  intros Hn. unfold lastn.
  destruct (Nat.le_gt_cases (length l) n) as [Hle|Hgt].
  - replace (length l - n)%nat with 0%nat by lia. reflexivity.
  - rewrite <- (take_drop (length l - n) l) at 3.
    rewrite last_app.
    destruct (last (drop (length l - n) l)) eqn:E; [reflexivity|].
    apply last_None in E. apply (f_equal length) in E. rewrite length_drop in E. simpl in E. lia.
Qed.

Lemma status_loop_map (f : string -> status_entry) keys :
  forall (acc : list (string * status_entry)) (w : World),
    NoDup (dict_keys acc ++ keys) ->
    (forall k, In k keys ->
       exists d, dict_get k (dumps w) = Some d
                 /\ f k = {| messages := Z.of_nat (length (items d));
                             last_message := last (items d) |}) ->
    status_loop keys acc w = (Ok (acc ++ map (fun k => (k, f k)) keys), w).
Proof.
  induction keys as [|k keys IH]; intros acc w Hnd Hkeys.
  - simpl. now rewrite app_nil_r.
  - destruct (Hkeys k (or_introl eq_refl)) as (d & Hd & Hf).
    simpl. msimpl. rewrite Hd.
    assert (Hfresh : ~ In k (dict_keys acc)).
    { apply NoDup_app in Hnd as (_ & Hdisj & _). intros Hin.
      apply (Hdisj k); [now apply list_elem_of_In | left]. }
    rewrite (dict_set_fresh k _ acc Hfresh), <- Hf.
    rewrite IH.
    + now rewrite <- app_assoc.
    + unfold dict_keys in *. rewrite map_app, <- app_assoc. exact Hnd.
    + intros k0 Hin. apply Hkeys. now right.
Qed.

(** X7. After the ingestion of a stream, [status] reports for every topic
    of [get_topics], in that order, the number of outputs buffered - the
    accepted ones, 100 at most - and the last accepted output, or nothing
    when there is none; it changes nothing. *)
Theorem status_after_run :
  forall (stream : list ConsumerRecord) (w : World),
    dumps w = empty_dumps ->
    status (run stream w).2
    = (Ok (map (fun t => (t, status_of (accepted_for t stream))) get_topics), (run stream w).2)
    /\ forall t, In t get_topics -> 0 <= messages (status_of (accepted_for t stream)) <= 100.
Proof.
  intros stream w Hw. split.
  - unfold status. msimpl. rewrite (run_keys stream w Hw).
    rewrite (status_loop_map (fun t => status_of (accepted_for t stream))); [reflexivity| |].
    + simpl. apply topics_NoDup.
    + intros t Ht.
      destruct (run_from_empty_dumps stream w t Hw Ht) as (d & Hd & _ & Hitems).
      exists d. split; [exact Hd|]. unfold status_of.
      rewrite Hitems, last_lastn by lia. reflexivity.
  - intros t _. unfold status_of. simpl.
    pose proof (lastn_length 100 (accepted_for t stream)). lia.
Qed.

Lemma status_after_run_witness :
  status (run [record_404; record_200; record_plain] sample_world).2
  = (Ok (map (fun t => (t, status_of (accepted_for t [record_404; record_200; record_plain])))
           get_topics),
     (run [record_404; record_200; record_plain] sample_world).2).
Proof.
  apply (status_after_run [record_404; record_200; record_plain] sample_world). reflexivity.
Defined.

(** ** What an export leaves alone *)


Section Yields.
Context {A B : Type}.
Implicit Types (P : event -> Prop).

Lemma yields_ret P (Q : A -> Prop) (a : A) : Q a -> yields P Q (mret a).
Proof.
  intros Ha w. split; [reflexivity|]. split.
  - exists []. simpl. now rewrite app_nil_r.
  - intros a' [= <-]. exact Ha.
Qed.

Lemma yields_lift P (r : result A) : yields P (fun _ => True) (lift r).
Proof.
  intros w. split; [reflexivity|]. split; [|auto].
  exists []. simpl. now rewrite app_nil_r.
Qed.

Lemma yields_bind P (Q : A -> Prop) (R : B -> Prop) (m : M A) (f : A -> M B) :
  yields P Q m -> (forall a, Q a -> yields P R (f a)) -> yields P R (m ≫= f).
Proof.
  intros Hm Hf w. destruct (Hm w) as (Hd & (evs & Ht & Hevs) & Hq).
  unfold mbind, M_bind. destruct (m w) as [[a|e] w1]; simpl in *.
  - destruct (Hf a (Hq a eq_refl) w1) as (Hd' & (evs' & Ht' & Hevs') & Hr).
    split; [congruence|]. split; [|exact Hr].
    exists (evs ++ evs'). split; [now rewrite Ht', Ht, app_assoc | now apply Forall_app].
  - split; [exact Hd|]. split; [eauto | discriminate].
Qed.

Lemma yields_weaken P P' (Q Q' : A -> Prop) (m : M A) :
  (forall e, P e -> P' e) -> (forall a, Q a -> Q' a) -> yields P Q m -> yields P' Q' m.
Proof.
  intros HP HQ Hm w. destruct (Hm w) as (Hd & (evs & Ht & Hevs) & Hq).
  split; [exact Hd|]. split; [|auto].
  exists evs. split; [exact Ht|]. eapply Forall_impl; eauto.
Qed.

Lemma yields_try P (Q : A -> Prop) (body : M A) (catches : exn -> bool) (handler : exn -> M A) :
  yields P Q body -> (forall e, yields P Q (handler e)) ->
  yields P Q (try_except body catches handler).
Proof.
  intros Hb Hh w. destruct (Hb w) as (Hd & (evs & Ht & Hevs) & Hq).
  unfold try_except. destruct (body w) as [[a|e] w1]; simpl in *.
  - split; [exact Hd|]. split; [eauto | exact Hq].
  - destruct (catches e).
    + destruct (Hh e w1) as (Hd' & (evs' & Ht' & Hevs') & Hr).
      split; [congruence|]. split; [|exact Hr].
      exists (evs ++ evs'). split; [now rewrite Ht', Ht, app_assoc | now apply Forall_app].
    + split; [exact Hd|]. split; [eauto | discriminate].
Qed.

End Yields.

Lemma yields_tell P (e : event) : P e -> yields P (fun _ => True) (tell e).
Proof.
  intros He w. split; [reflexivity|]. split; [|auto].
  exists [e]. split; [reflexivity | now constructor].
Qed.

Lemma yields_kafka {A} P (call : kafka_call) (r : result A) :
  P (Kafka call) -> yields P (fun _ => True) (kafka call r).
Proof.
  intros Hp. unfold kafka.
  apply (yields_bind P (fun _ => True)); [now apply yields_tell | intros; apply yields_lift].
Qed.

Lemma yields_merchant_id_of P merchant_token :
  (forall token, P (Hashed token)) -> yields P (fun _ => True) (merchant_id_of merchant_token).
Proof.
  intros Hp. unfold merchant_id_of.
  destruct merchant_token as [token|]; [destruct (truthy token)|]; try now apply yields_ret.
  apply (yields_bind P (fun _ => True)); [apply yields_tell, Hp | intros; now apply yields_ret].
Qed.

(** The loop adds only prints, and at most one payload per record of the
    window. *)
Lemma yields_export_loop P end_offset merchant_id stream : forall offset msgs,
  (forall l e, P (Printed l e)) ->
  yields P (fun r => (length r <= length msgs + Z.to_nat (end_offset - offset))%nat)
    (export_loop end_offset merchant_id offset stream msgs).
Proof.
  induction stream as [|msg rest IH]; intros offset msgs Hp.
  - cbn [export_loop]. apply yields_ret. lia.
  - cbn [export_loop]. destruct (Z.leb_spec end_offset offset) as [Hle|Hlt]; [apply yields_ret; lia|].
    apply (yields_bind P (fun r => (length r <= S (length msgs))%nat)).
    + apply yields_try.
      * apply (yields_bind P (fun _ => True)); [apply yields_lift|]. intros j _.
        apply (yields_bind P (fun _ => True)); [apply yields_lift|]. intros keep _.
        apply yields_ret. destruct keep; rewrite ?length_app; simpl; lia.
      * intros e. apply (yields_bind P (fun _ => True)); [apply yields_tell, Hp|].
        intros _ _. apply yields_ret. lia.
    + intros r Hr. eapply yields_weaken; [intros e He; exact He | | apply (IH (offset + 1) r Hp)].
      intros a Ha. cbv beta in Ha. lia.
Qed.

Lemma yields_open_window P env topic :
  (forall call, P (Kafka call)) ->
  yields P (fun r => r.2 - r.1.2 <= 100000) (open_window env topic).
Proof.
  intros Hp. unfold open_window.
  apply (yields_bind P (fun _ => True)); [apply yields_kafka, Hp|]. intros c0 _.
  apply (yields_bind P (fun _ => True)); [apply yields_kafka, Hp|]. intros c1 _.
  apply (yields_bind P (fun _ => True)); [apply yields_kafka, Hp|]. intros c2 _.
  apply (yields_bind P (fun _ => True)); [apply yields_kafka, Hp|]. intros start_offset _.
  apply (yields_bind P (fun _ => True)); [apply yields_kafka, Hp|]. intros c3 _.
  apply (yields_bind P (fun _ => True)); [apply yields_kafka, Hp|]. intros end_offset _.
  apply (yields_bind P (fun _ => True)); [apply yields_kafka, Hp|]. intros c4 _.
  apply yields_ret. simpl. lia.
Qed.

Lemma yields_export_body P env topic merchant_id :
  (forall call, P (Kafka call)) -> (forall l e, P (Printed l e)) ->
  (forall filepath rows,
     (topic <> "marketSituation" -> Z.of_nat (length rows) <= 100000) -> P (ToCsv filepath rows)) ->
  yields P (fun _ => True) (export_body env topic merchant_id).
Proof.
  intros Hk Hp Hc. unfold export_body.
  apply (yields_bind P (fun r => r.2 - r.1.2 <= 100000)); [now apply yields_open_window|].
  intros [[consumer offset] end_offset] Hw. simpl in Hw.
  apply (yields_bind P (fun _ => True)); [apply yields_kafka, Hk|]. intros stream _.
  apply (yields_bind P (fun r => Z.of_nat (length r) <= 100000)).
  { eapply yields_weaken; [intros e He; exact He | | apply (yields_export_loop P _ _ _ offset [] Hp)].
    intros r Hr. cbv beta in Hr. simpl length in Hr. lia. }
  intros msgs Hmsgs.
  apply (yields_bind P (fun _ => True)); [apply yields_kafka, Hk|]. intros _ _.
  apply (yields_bind P (fun df => topic <> "marketSituation" -> Z.of_nat (length df) <= 100000)).
  { intros w. split; [reflexivity|]. split; [exists []; simpl; now rewrite app_nil_r|].
    unfold lift. simpl. intros df Hdf Hne.
    destruct (String.eqb_spec topic "marketSituation"); [contradiction|]. now injection Hdf as <-. }
  intros df Hdf.
  apply (yields_bind P (fun _ => True)); [apply yields_tell, Hc, Hdf|]. intros _ _.
  apply (yields_bind P (fun _ => True)); [apply yields_lift|]. intros _ _.
  now apply yields_ret.
Qed.

Lemma yields_export P env auth_header topic :
  (forall token, P (Hashed token)) ->
  (forall call, P (Kafka call)) -> (forall l e, P (Printed l e)) ->
  (forall filepath rows,
     (topic <> "marketSituation" -> Z.of_nat (length rows) <= 100000) -> P (ToCsv filepath rows)) ->
  yields P (fun _ => True) (export_csv_for_topic env auth_header topic).
Proof.
  intros Hh Hk Hp Hc. unfold export_csv_for_topic.
  apply (yields_bind P (fun _ => True)); [now apply yields_merchant_id_of|]. intros merchant_id _.
  destruct (negb (in_topics topic)); [now apply yields_ret|].
  apply yields_try; [now apply yields_export_body | intros e; now apply yields_ret].
Qed.

Lemma export_returns env auth_header topic w :
  exists r, (export_csv_for_topic env auth_header topic w).1 = Ok r.
Proof.
  unfold export_csv_for_topic. unfold mbind, M_bind. rewrite merchant_id_of_derived.
  destruct (negb (in_topics topic)); [eexists; reflexivity|].
  unfold try_except. destruct (export_body env topic _ _) as [[r|e] w']; eexists; reflexivity.
Qed.

Lemma run_dumps_eq stream : forall w1 w2,
  dumps w1 = dumps w2 -> dumps (run stream w1).2 = dumps (run stream w2).2.
Proof.
  induction stream as [|msg rest IH]; intros w1 w2 Hd; [exact Hd|].
  rewrite !run_cons. apply IH. rewrite !run_body_dumps. now rewrite Hd.
Qed.

(** X8. An export request always returns a response: no exception leaves
    it. It leaves the buffers as they are, sends nothing to subscribers,
    and the buffers after any later ingestion are the ones without the
    export. *)
Theorem export_never_raises_nor_touches_buffers :
  forall (env : Env) (auth_header : option string) (topic : string) (w : World),
    (exists r, (export_csv_for_topic env auth_header topic w).1 = Ok r)
    /\ dumps (export_csv_for_topic env auth_header topic w).2 = dumps w
    /\ (exists evs, trace (export_csv_for_topic env auth_header topic w).2 = trace w ++ evs
                    /\ Forall (fun e => ~ is_socket_event e) evs)
    /\ forall stream,
         dumps (run stream (export_csv_for_topic env auth_header topic w).2).2
         = dumps (run stream w).2.
Proof.
  intros env auth_header topic w.
  destruct (yields_export (fun e => ~ is_socket_event e) env auth_header topic) with (w := w)
    as (Hd & Ht & _); simpl; auto.
  - split; [apply export_returns|]. split; [exact Hd|]. split; [exact Ht|].
    intros stream. now apply run_dumps_eq.
Qed.

(** X9. An export of a topic other than the reshaped one never writes more
    than 100000 rows, whatever the broker holds and yields. *)
Theorem export_writes_at_most_100000_rows :
  forall (env : Env) (auth_header : option string) (topic : string) (w : World),
    topic <> "marketSituation" ->
    exists evs,
      trace (export_csv_for_topic env auth_header topic w).2 = trace w ++ evs
      /\ forall filepath rows, In (ToCsv filepath rows) evs -> Z.of_nat (length rows) <= 100000.
Proof.
  intros env auth_header topic w Hne.
  destruct (yields_export (at_most_rows 100000) env auth_header topic) with (w := w)
    as (_ & (evs & Ht & Hevs) & _); simpl; auto.
  exists evs. split; [exact Ht|].
  intros filepath rows Hin. rewrite List.Forall_forall in Hevs. apply (Hevs _ Hin).
Qed.

Lemma export_row_bound_witness :
  exists evs,
    trace (export_csv_for_topic sample_env None "addOffer" sample_world).2
    = trace sample_world ++ evs
    /\ forall filepath rows, In (ToCsv filepath rows) evs -> Z.of_nat (length rows) <= 100000.
Proof.
  apply (export_writes_at_most_100000_rows sample_env None "addOffer" sample_world). discriminate.
Defined.

(** X10. When the broker cannot be reached, an export of a known topic
    answers ['failed with: NoBrokersAvailable'] after the one attempt to
    open a reader; nothing is read or written. *)
Theorem export_with_unreachable_broker :
  forall (env : Env) (auth_header : option string) (topic : string) (w : World),
    In topic topics ->
    reachable (env_broker env) = false ->
    export_csv_for_topic env auth_header topic w
    = (Ok [("error", "failed with: NoBrokersAvailable")],
       {| dumps := dumps w;
          trace := trace w ++ hash_calls (merchant_token_of auth_header) ++ [Kafka KOpen] |}).
Proof.
  intros env auth_header topic w Hin Hr. apply in_topics_In in Hin.
  unfold export_csv_for_topic. unfold mbind at 1, M_bind. rewrite merchant_id_of_derived.
  rewrite Hin. simpl. unfold try_except, export_body, open_window.
  msimpl. unfold KafkaConsumer_new. rewrite Hr. simpl. now rewrite <- app_assoc.
Qed.

Lemma export_unreachable_witness :
  export_csv_for_topic unreachable_env None "addOffer" sample_world
  = (Ok [("error", "failed with: NoBrokersAvailable")],
     {| dumps := dumps sample_world;
        trace := trace sample_world ++ hash_calls (merchant_token_of None) ++ [Kafka KOpen] |}).
Proof.
  apply (export_with_unreachable_broker unreachable_env None "addOffer" sample_world).
  - simpl. tauto.
  - reflexivity.
Defined.

Lemma export_loop_good_step end_offset merchant_id msg rest offset msgs w :
  exportable msg ->
  offset < end_offset ->
  export_loop end_offset merchant_id offset (msg :: rest) msgs w
  = export_loop end_offset merchant_id (offset + 1) rest
      (msgs ++ omap (kept_payload merchant_id) [msg])
      {| dumps := dumps w; trace := trace w ++ decode_error msg |}.
Proof.
  intros Hmsg Hlt. cbn [export_loop]. destruct (Z.leb_spec end_offset offset); [lia|].
  unfold exportable, kept_payload, decode_error in *.
  unfold mbind at 1, M_bind. unfold try_except. msimpl. cbn [omap]. cbv beta.
  destruct (msg_value msg) as [j|e] eqn:Ev.
  - destruct j; try contradiction. rewrite passes_filter_object.
    simpl. rewrite Ev, !app_nil_r.
    destruct (keeps merchant_id fields); simpl; rewrite ?app_nil_r; destruct w; reflexivity.
  - rewrite Hmsg. simpl. now rewrite Ev, app_nil_r.
Qed.

(** The loop goes past a prefix of records it can handle. *)
Lemma export_loop_good_prefix end_offset merchant_id good : forall rest offset msgs w,
  Forall exportable good ->
  offset + Z.of_nat (length good) <= end_offset ->
  export_loop end_offset merchant_id offset (good ++ rest) msgs w
  = export_loop end_offset merchant_id (offset + Z.of_nat (length good)) rest
      (msgs ++ omap (kept_payload merchant_id) good)
      {| dumps := dumps w; trace := trace w ++ flat_map decode_error good |}.
Proof.
  induction good as [|msg good IH]; intros rest offset msgs w Hall Hlen.
  - simpl. rewrite Z.add_0_r, !app_nil_r. now destruct w.
  - apply Forall_cons in Hall as [Hmsg Hall]. simpl length in Hlen.
    rewrite <- app_comm_cons, export_loop_good_step by (auto; lia).
    rewrite IH by (auto; lia). cbn [dumps trace].
    replace (offset + 1 + Z.of_nat (length good)) with (offset + Z.of_nat (S (length good))) by lia.
    change (msg :: good) with ([msg] ++ good).
    rewrite omap_app, flat_map_app, !app_assoc. simpl. now rewrite app_nil_r.
Qed.

Lemma passes_filter_raises j merchant_id e :
  passes_filter j merchant_id = Raise e -> is_ValueError e = false.
Proof.
  unfold passes_filter, py_in, py_getitem, type_error.
  destruct j as [| | | |s|l|fields]; simpl; try (intros [= <-]; reflexivity).
  - destruct (is_substring "merchant_id" s); simpl; [intros [= <-]; reflexivity | discriminate].
  - destruct (existsb (is_JStr "merchant_id") l); simpl;
      [intros [= <-]; reflexivity | discriminate].
  - unfold dict_has. destruct (dict_get "merchant_id" fields); simpl; discriminate.
Qed.

Lemma export_loop_breaks end_offset merchant_id msg rest offset msgs w e :
  offset < end_offset ->
  breaks_export merchant_id msg = Some e ->
  export_loop end_offset merchant_id offset (msg :: rest) msgs w = (Raise e, w).
Proof.
  intros Hlt Hb. cbn [export_loop]. destruct (Z.leb_spec end_offset offset); [lia|].
  unfold breaks_export in Hb. unfold mbind at 1, M_bind. unfold try_except. msimpl.
  destruct (msg_value msg) as [j|e0].
  - destruct (passes_filter j merchant_id) as [keep|e1] eqn:Ef; [discriminate|].
    injection Hb as <-. now rewrite (passes_filter_raises _ _ _ Ef).
  - destruct (is_ValueError e0) eqn:E; [discriminate|]. injection Hb as <-. reflexivity.
Qed.

(** X11. When the window holds a record on which the loop raises something
    other than a [ValueError] (a payload that is a number, say), the
    export answers with that error; the rows gathered so far are not
    written and the reader is not closed. *)
Theorem export_stops_at_a_record_it_cannot_filter :
  forall (env : Env) (auth_header : option string) (topic : string) (w : World)
         (good rest : list ConsumerRecord) (bad : ConsumerRecord) (e : exn),
    In topic topics ->
    reachable (env_broker env) = true ->
    0 <= beginning_offset (env_broker env) (topic, 0) ->
    let broker := env_broker env in
    let end_offset := end_offset broker (topic, 0) in
    let offset := Z.max (beginning_offset broker (topic, 0)) (end_offset - 100000) in
    let merchant_token := merchant_token_of auth_header in
    fetch broker (topic, 0) offset = good ++ bad :: rest ->
    Forall exportable good ->
    offset + Z.of_nat (length good) < end_offset ->
    breaks_export (derived_id merchant_token) bad = Some e ->
    export_csv_for_topic env auth_header topic w
    = (Ok [("error", ("failed with: " ++ exn_msg e)%string)],
       {| dumps := dumps w;
          trace := trace w ++ hash_calls merchant_token ++ window_calls topic offset
                   ++ [Kafka KIterate] ++ flat_map decode_error good |}).
Proof.
  intros env auth_header topic w good rest bad e Hin Hr Hb broker end_offset offset
    merchant_token Hfetch Hgood Hlen Hbad.
  unfold export_csv_for_topic.
  unfold mbind at 1, M_bind. rewrite merchant_id_of_derived.
  apply in_topics_In in Hin. rewrite Hin. simpl.
  unfold try_except, export_body.
  unfold mbind at 1, M_bind. rewrite (open_window_reachable env topic _ Hr Hb). simpl.
  unfold mbind at 1, M_bind. unfold kafka at 1. msimpl.
  rewrite iterate_export_consumer. simpl.
  fold broker end_offset offset merchant_token. rewrite Hfetch.
  rewrite export_loop_good_prefix by (auto; lia).
  rewrite (export_loop_breaks _ _ _ _ _ _ _ e) by (auto; lia).
  simpl. repeat rewrite <- app_assoc. reflexivity.
Qed.

Lemma export_stops_witness :
  export_csv_for_topic odd_env None "addOffer" sample_world
  = (Ok [("error", "failed with: argument of type 'int' is not iterable")],
     {| dumps := dumps sample_world;
        trace := trace sample_world ++ hash_calls (merchant_token_of None)
                 ++ window_calls "addOffer" 0 ++ [Kafka KIterate]
                 ++ flat_map decode_error [offer_without_merchant] |}).
Proof.
  apply (export_stops_at_a_record_it_cannot_filter odd_env None "addOffer" sample_world
           [offer_without_merchant] [offer_of_another] record_number
           (type_error "argument of type 'int' is not iterable")).
  - simpl. tauto.
  - reflexivity.
  - simpl. lia.
  - reflexivity.
  - repeat constructor.
  - simpl. lia.
  - reflexivity.
Defined.

(** ** The export of the reshaped topic *)

Lemma export_shaped env auth_header topic w :
  In topic topics ->
  reachable (env_broker env) = true ->
  0 <= beginning_offset (env_broker env) (topic, 0) ->
  let broker := env_broker env in
  let end_offset := end_offset broker (topic, 0) in
  let offset := Z.max (beginning_offset broker (topic, 0)) (end_offset - 100000) in
  let window := take (Z.to_nat (end_offset - offset)) (fetch broker (topic, 0) offset) in
  let merchant_token := merchant_token_of auth_header in
  let msgs := omap (kept_payload (derived_id merchant_token)) window in
  let filepath := ("data/" ++ (topic ++ "_" ++ py_str_int (env_now env)) ++ ".csv")%string in
  let read := {| dumps := dumps w;
                 trace := trace w ++ hash_calls merchant_token ++ window_calls topic offset
                          ++ [Kafka KIterate] ++ flat_map decode_error window
                          ++ [Kafka KClose] |} in
  Forall exportable window ->
  export_csv_for_topic env auth_header topic w
  = match (if String.eqb topic "marketSituation"
           then market_situation_shaper msgs else Ok msgs) with
    | Ok df =>
        (match env_to_csv env filepath df with
         | Ok _ => Ok [("url", filepath)]
         | Raise e => Ok [("error", ("failed with: " ++ exn_msg e)%string)]
         end,
         {| dumps := dumps w; trace := trace read ++ [ToCsv filepath df] |})
    | Raise e => (Ok [("error", ("failed with: " ++ exn_msg e)%string)], read)
    end.
Proof.
  intros Hin Hr Hb broker end_offset offset window merchant_token msgs filepath read Hall.
  unfold export_csv_for_topic.
  unfold mbind at 1, M_bind. rewrite merchant_id_of_derived.
  apply in_topics_In in Hin. rewrite Hin. simpl.
  unfold try_except, export_body.
  unfold mbind at 1, M_bind. rewrite (open_window_reachable env topic _ Hr Hb). simpl.
  unfold mbind at 1, M_bind. unfold kafka at 1. msimpl.
  rewrite iterate_export_consumer. simpl.
  rewrite export_loop_filters by exact Hall. simpl.
  fold broker end_offset offset window merchant_token msgs filepath.
  unfold read. cbn [dumps trace].
  destruct (if String.eqb topic "marketSituation" then market_situation_shaper msgs else Ok msgs)
    as [df|e]; cbn [dumps trace].
  - destruct (env_to_csv env filepath df) as [[]|e]; cbn [dumps trace];
      unfold window_calls; repeat (progress (rewrite <- ?app_assoc; simpl)); reflexivity.
  - unfold window_calls. repeat (progress (rewrite <- ?app_assoc; simpl)). reflexivity.
Qed.

(** X12. An export of [marketSituation] writes the offer rows of the
    situations that pass the filter, one row per offer; when the shaper
    raises, the answer is its error, and nothing is written although the
    reader was closed. *)
Theorem market_situation_export_writes_offer_rows :
  forall (env : Env) (auth_header : option string) (w : World) (views : list situation_view),
    reachable (env_broker env) = true ->
    0 <= beginning_offset (env_broker env) ("marketSituation", 0) ->
    let broker := env_broker env in
    let end_offset := end_offset broker ("marketSituation", 0) in
    let offset := Z.max (beginning_offset broker ("marketSituation", 0)) (end_offset - 100000) in
    let window := take (Z.to_nat (end_offset - offset))
                    (fetch broker ("marketSituation", 0) offset) in
    let merchant_token := merchant_token_of auth_header in
    let msgs := omap (kept_payload (derived_id merchant_token)) window in
    let filepath := ("data/" ++ ("marketSituation" ++ "_" ++ py_str_int (env_now env))
                     ++ ".csv")%string in
    let read := trace w ++ hash_calls merchant_token
                ++ window_calls "marketSituation" offset
                ++ [Kafka KIterate] ++ flat_map decode_error window ++ [Kafka KClose] in
    Forall exportable window ->
    (Forall2 is_situation msgs views ->
       env_to_csv env filepath (flat_map situation_rows views) = Ok tt ->
       export_csv_for_topic env auth_header "marketSituation" w
       = (Ok [("url", filepath)],
          {| dumps := dumps w;
             trace := read ++ [ToCsv filepath (flat_map situation_rows views)] |}))
    /\ (forall e, market_situation_shaper msgs = Raise e ->
          export_csv_for_topic env auth_header "marketSituation" w
          = (Ok [("error", ("failed with: " ++ exn_msg e)%string)],
             {| dumps := dumps w; trace := read |})).
Proof.
  intros env auth_header w views Hr Hb broker end_offset offset window merchant_token msgs
    filepath read Hall.
  assert (Hin : In "marketSituation" topics) by (simpl; tauto).
  pose proof (export_shaped env auth_header "marketSituation" w Hin Hr Hb Hall) as H.
  cbv zeta in H. fold broker end_offset offset window merchant_token msgs filepath in H.
  rewrite String.eqb_refl in H. split.
  - intros Hviews Hcsv. rewrite H. unfold market_situation_shaper.
    rewrite (expand_situations_rows _ _ _ Hviews). simpl. rewrite Hcsv. reflexivity.
  - intros e He. rewrite H, He. reflexivity.
Qed.

Lemma market_situation_export_witness :
  export_csv_for_topic odd_env None "marketSituation" sample_world
  = (Ok [("url", "data/marketSituation_1500000000.csv")],
     {| dumps := dumps sample_world;
        trace := (trace sample_world ++ hash_calls (merchant_token_of None)
                  ++ window_calls "marketSituation" 0
                  ++ [Kafka KIterate]
                  ++ flat_map decode_error
                       [ {| msg_topic := "marketSituation"; msg_timestamp := 1;
                            msg_value := Ok anonymous_situation |} ]
                  ++ [Kafka KClose])
                 ++ [ToCsv "data/marketSituation_1500000000.csv"
                       (flat_map situation_rows [anonymous_view])] |}).
Proof.
  apply (market_situation_export_writes_offer_rows odd_env None sample_world [anonymous_view]).
  - reflexivity.
  - simpl. lia.
  - repeat constructor.
  - repeat constructor.
  - reflexivity.
Defined.

(** X13. When the partition holds no record (its end offset is not above
    its earliest offset), an export reads none of the records the reader
    yields, writes a file without rows and answers with its url. *)
Theorem export_of_empty_partition :
  forall (env : Env) (auth_header : option string) (topic : string) (w : World),
    In topic topics ->
    reachable (env_broker env) = true ->
    0 <= beginning_offset (env_broker env) (topic, 0) ->
    end_offset (env_broker env) (topic, 0) <= beginning_offset (env_broker env) (topic, 0) ->
    let filepath := ("data/" ++ (topic ++ "_" ++ py_str_int (env_now env)) ++ ".csv")%string in
    export_csv_for_topic env auth_header topic w
    = (match env_to_csv env filepath [] with
       | Ok _ => Ok [("url", filepath)]
       | Raise e => Ok [("error", ("failed with: " ++ exn_msg e)%string)]
       end,
       {| dumps := dumps w;
          trace := trace w ++ hash_calls (merchant_token_of auth_header)
                   ++ window_calls topic (beginning_offset (env_broker env) (topic, 0))
                   ++ [Kafka KIterate; Kafka KClose; ToCsv filepath []] |}).
Proof.
  intros env auth_header topic w Hin Hr Hb Hempty filepath.
  pose proof (export_shaped env auth_header topic w Hin Hr Hb) as H. cbv zeta in H.
  replace (Z.max (beginning_offset (env_broker env) (topic, 0))
             (end_offset (env_broker env) (topic, 0) - 100000))
    with (beginning_offset (env_broker env) (topic, 0)) in H by lia.
  replace (Z.to_nat (end_offset (env_broker env) (topic, 0)
                     - beginning_offset (env_broker env) (topic, 0))) with 0%nat in H by lia.
  rewrite take_0 in H. rewrite H by constructor.
  assert (Hshape : (if String.eqb topic "marketSituation"
                    then market_situation_shaper [] else Ok []) = Ok (@nil json))
    by now destruct (String.eqb topic "marketSituation").
  simpl omap. rewrite Hshape. fold filepath. cbn [dumps trace flat_map].
  destruct (env_to_csv env filepath []) as [[]|e];
    repeat (progress (rewrite <- ?app_assoc; simpl)); reflexivity.
Qed.

Lemma export_empty_partition_witness :
  export_csv_for_topic sample_env None "profit" sample_world
  = (Ok [("url", "data/profit_1500000000.csv")],
     {| dumps := dumps sample_world;
        trace := trace sample_world ++ hash_calls (merchant_token_of None)
                 ++ window_calls "profit" 0
                 ++ [Kafka KIterate; Kafka KClose; ToCsv "data/profit_1500000000.csv" []] |}).
Proof.
  apply (export_of_empty_partition sample_env None "profit" sample_world).
  - simpl. tauto.
  - reflexivity.
  - simpl. lia.
  - simpl. lia.
Defined.

(** ** The window of an export request *)

(** The body of a request, once the window is open and the reader
    iterates, is [export_tail] on what the reader yields. *)
Lemma export_body_tail env topic merchant_id :
  export_body env topic merchant_id
  = ('(consumer, offset, end_offset) ← open_window env topic;
     stream ← kafka KIterate (iterate (env_broker env) consumer (topic, 0));
     export_tail env topic merchant_id offset end_offset stream).
Proof. reflexivity. Qed.

(** A request for a known topic, up to the first turn of its loop. *)
Lemma export_reaches_window env auth_header topic w :
  In topic topics ->
  reachable (env_broker env) = true ->
  0 <= beginning_offset (env_broker env) (topic, 0) ->
  let broker := env_broker env in
  let end_offset := end_offset broker (topic, 0) in
  let offset := Z.max (beginning_offset broker (topic, 0)) (end_offset - 100000) in
  let merchant_token := merchant_token_of auth_header in
  export_csv_for_topic env auth_header topic w
  = try_except
      (export_tail env topic (derived_id merchant_token) offset end_offset
         (fetch broker (topic, 0) offset))
      any_Exception
      (fun e => mret [("error", ("failed with: " ++ exn_msg e)%string)])
      {| dumps := dumps w;
         trace := trace w ++ hash_calls merchant_token ++ window_calls topic offset
                  ++ [Kafka KIterate] |}.
Proof.
  intros Hin Hr Hb broker end_offset offset merchant_token.
  unfold export_csv_for_topic.
  unfold mbind at 1, M_bind. rewrite merchant_id_of_derived.
  apply in_topics_In in Hin. rewrite Hin. cbn [negb].
  rewrite export_body_tail. unfold try_except.
  unfold mbind at 1, M_bind. rewrite (open_window_reachable env topic _ Hr Hb). cbv zeta.
  unfold mbind at 1, M_bind. unfold kafka at 1.
  unfold mbind at 1, M_bind. unfold tell at 1, lift at 1.
  rewrite iterate_export_consumer. cbn [dumps trace].
  fold broker end_offset offset merchant_token.
  unfold window_calls. repeat (progress (rewrite <- ?app_assoc; cbn [app])). reflexivity.
Qed.

Lemma export_tail_window env topic merchant_id offset end_offset stream w :
  export_tail env topic merchant_id offset end_offset stream w
  = export_tail env topic merchant_id offset end_offset
      (take (Z.to_nat (end_offset - offset)) stream) w.
Proof.
  unfold export_tail. unfold mbind at 1 6, M_bind.
  now rewrite export_loop_window.
Qed.

Lemma yields_export_tail P env topic merchant_id offset end_offset stream :
  (forall e, P e) ->
  yields P (fun _ => True) (export_tail env topic merchant_id offset end_offset stream).
Proof.
  intros Hp. unfold export_tail.
  apply (yields_bind P (fun _ => True)).
  { eapply yields_weaken; [intros e He; exact He | | apply (yields_export_loop P); auto]. auto. }
  intros msgs _.
  apply (yields_bind P (fun _ => True)); [apply yields_kafka, Hp|]. intros _ _.
  apply (yields_bind P (fun _ => True)); [apply yields_lift|]. intros df _.
  apply (yields_bind P (fun _ => True)); [apply yields_tell, Hp|]. intros _ _.
  apply (yields_bind P (fun _ => True)); [apply yields_lift|]. intros _ _.
  now apply yields_ret.
Qed.

Lemma export_clip env auth_header topic w :
  In topic topics -> reachable (env_broker env) = true ->
  0 <= beginning_offset (env_broker env) (topic, 0) ->
  export_csv_for_topic (clip_env env) auth_header topic w
  = export_csv_for_topic env auth_header topic w.
Proof.
  intros Hin Hr Hb.
  rewrite (export_reaches_window env auth_header topic w Hin Hr Hb).
  rewrite (export_reaches_window (clip_env env) auth_header topic w Hin Hr Hb).
  cbv zeta. unfold try_except.
  cbn [clip_env clip_reader env_broker beginning_offset end_offset fetch].
  rewrite (export_tail_window env topic _ _ _
             (fetch (env_broker env) (topic, 0) _)).
  reflexivity.
Qed.

(** C2. An export opens its own reader, reads the earliest offset of the
    partition as [start_offset] and its end offset as [end_offset], and
    seeks to [max(start_offset, end_offset - 100000)]; the iteration
    starts there and the loop looks at no more than the records up to
    [end_offset]. With offsets from 0 to 999 the window is [[0, 999)];
    with offsets from 0 to 200000 it starts at 100000. Every request for a
    known topic does so: its trace begins with these calls, the seek to
    that offset among them; what the reader yields at or after
    [end_offset] changes nothing of the request; and the rows it writes
    are computed from the records of the window, all of them, in order. *)
Theorem export_window_start :
  forall (env : Env) (topic : string) (w : World),
    reachable (env_broker env) = true ->
    0 <= beginning_offset (env_broker env) (topic, 0) ->
    let start_offset := beginning_offset (env_broker env) (topic, 0) in
    let end_offset := end_offset (env_broker env) (topic, 0) in
    let offset := Z.max start_offset (end_offset - 100000) in
    exists consumer : KafkaConsumer,
      open_window env topic w
      = (Ok (consumer, offset, end_offset),
         {| dumps := dumps w;
            trace := trace w ++ [ Kafka KOpen; Kafka (KAssign [(topic, 0)]);
                                  Kafka KSeekToBeginning; Kafka (KPosition (topic, 0));
                                  Kafka KSeekToEnd; Kafka (KPosition (topic, 0));
                                  Kafka (KSeek (topic, 0) offset) ] |})
      /\ positions consumer !! (topic, 0) = Some offset
      /\ iterate (env_broker env) consumer (topic, 0)
         = Ok (fetch (env_broker env) (topic, 0) offset)
      /\ (forall merchant_id stream msgs w1,
            export_loop end_offset merchant_id offset stream msgs w1
            = export_loop end_offset merchant_id offset
                (take (Z.to_nat (end_offset - offset)) stream) msgs w1)
      /\ (start_offset = 0 -> end_offset = 999 ->
            offset = 0 /\ Z.to_nat (end_offset - offset) = 999%nat)
      /\ (start_offset = 0 -> end_offset = 200000 -> offset = 100000)
      /\ (In topic topics ->
          forall auth_header : option string,
            let merchant_token := merchant_token_of auth_header in
            let window := take (Z.to_nat (end_offset - offset))
                            (fetch (env_broker env) (topic, 0) offset) in
            let msgs := omap (kept_payload (derived_id merchant_token)) window in
            let filepath := ("data/" ++ (topic ++ "_" ++ py_str_int (env_now env))
                             ++ ".csv")%string in
            let read := {| dumps := dumps w;
                           trace := trace w ++ hash_calls merchant_token
                                    ++ window_calls topic offset
                                    ++ [Kafka KIterate] ++ flat_map decode_error window
                                    ++ [Kafka KClose] |} in
            (exists evs,
               trace (export_csv_for_topic env auth_header topic w).2
               = trace w ++ hash_calls merchant_token ++ window_calls topic offset
                 ++ [Kafka KIterate] ++ evs)
            /\ export_csv_for_topic (clip_env env) auth_header topic w
               = export_csv_for_topic env auth_header topic w
            /\ (Forall exportable window ->
                  export_csv_for_topic env auth_header topic w
                  = match (if String.eqb topic "marketSituation"
                           then market_situation_shaper msgs else Ok msgs) with
                    | Ok df =>
                        (match env_to_csv env filepath df with
                         | Ok _ => Ok [("url", filepath)]
                         | Raise e => Ok [("error", ("failed with: " ++ exn_msg e)%string)]
                         end,
                         {| dumps := dumps w; trace := trace read ++ [ToCsv filepath df] |})
                    | Raise e =>
                        (Ok [("error", ("failed with: " ++ exn_msg e)%string)], read)
                    end)).
Proof.
  intros env topic w Hr Hb start_offset end_offset offset.
  exists (export_consumer (env_broker env) topic offset).
  split; [apply (open_window_reachable env topic w Hr Hb)|].
  split; [apply lookup_insert_eq|].
  split; [apply iterate_export_consumer|].
  split; [intros; apply export_loop_window|].
  split; [unfold offset; intros -> ->; split; reflexivity|].
  split; [unfold offset; intros -> ->; reflexivity|].
  intros Hin auth_header merchant_token window msgs filepath read.
  split; [|split].
  - rewrite (export_reaches_window env auth_header topic w Hin Hr Hb). cbv zeta.
    fold start_offset end_offset offset merchant_token.
    destruct (yields_try any_event (fun _ => True)
                (export_tail env topic (derived_id merchant_token) offset end_offset
                   (fetch (env_broker env) (topic, 0) offset))
                any_Exception
                (fun e => mret [("error", ("failed with: " ++ exn_msg e)%string)])
                (yields_export_tail any_event _ _ _ _ _ _ (fun _ => I))
                (fun e => yields_ret any_event (fun _ => True) _ I)
                {| dumps := dumps w;
                   trace := trace w ++ hash_calls merchant_token ++ window_calls topic offset
                            ++ [Kafka KIterate] |})
      as (_ & (evs & Ht & _) & _).
    exists evs. rewrite Ht. cbn [trace]. now rewrite <- !app_assoc.
  - apply (export_clip env auth_header topic w Hin Hr Hb).
  - intros Hall. apply (export_shaped env auth_header topic w Hin Hr Hb Hall).
Qed.

Lemma export_window_witness :
  exists consumer : KafkaConsumer,
    open_window sample_env "addOffer" sample_world
    = (Ok (consumer, 0, 4),
       {| dumps := dumps sample_world;
          trace := trace sample_world ++
                     [ Kafka KOpen; Kafka (KAssign [("addOffer", 0)]);
                       Kafka KSeekToBeginning; Kafka (KPosition ("addOffer", 0));
                       Kafka KSeekToEnd; Kafka (KPosition ("addOffer", 0));
                       Kafka (KSeek ("addOffer", 0) 0) ] |})
    /\ export_csv_for_topic (clip_env sample_env) None "addOffer" sample_world
       = export_csv_for_topic sample_env None "addOffer" sample_world.
Proof.
  destruct (export_window_start sample_env "addOffer" sample_world)
    as (c & H & _ & _ & _ & _ & _ & Hreq).
  - reflexivity.
  - simpl. lia.
  - exists c. split; [exact H|].
    destruct (Hreq ltac:(simpl; tauto) None) as (_ & Hclip & _). exact Hclip.
Defined.

(** ** The scheme of the Authorization header *)

Lemma split_from_no_sep sep s : forall cur,
  ~ In sep (list_ascii_of_string s) ->
  split_from sep cur s = [(string_of_list_ascii (rev cur) ++ s)%string].
Proof.
  induction s as [|c s IH]; intros cur Hno.
  - simpl. now rewrite string_append_nil_r.
  - simpl in *. destruct (Ascii.eqb_spec c sep) as [->|Hne]; [tauto|].
    rewrite IH by tauto. simpl. now rewrite string_of_list_ascii_snoc.
Qed.

Lemma last_split_from_suffix sep pre token : forall cur,
  ~ In sep (list_ascii_of_string token) ->
  List.last (split_from sep cur (pre ++ String sep token)%string) "" = token.
Proof.
  induction pre as [|c pre IH]; intros cur Hno.
  - rewrite append_nil_l. simpl. rewrite Ascii.eqb_refl.
    rewrite last_cons_not_nil by apply split_from_not_nil.
    now rewrite split_from_no_sep.
  - rewrite append_cons. simpl. destruct (Ascii.eqb c sep); [|now apply IH].
    rewrite last_cons_not_nil by apply split_from_not_nil. now apply IH.
Qed.

(** X14. The word before the token in the Authorization header is not
    looked at: with any scheme, or with the bare token, the token
    extracted is the same and so is the whole export. *)
Theorem authorization_scheme_is_ignored :
  forall (env : Env) (scheme token : string) (topic : string) (w : World),
    truthy token = true ->
    ~ In " "%char (list_ascii_of_string token) ->
    merchant_token_of (Some (scheme ++ " " ++ token)%string) = Some token
    /\ merchant_token_of (Some token) = Some token
    /\ export_csv_for_topic env (Some (scheme ++ " " ++ token)%string) topic w
       = export_csv_for_topic env (Some token) topic w.
Proof.
  intros env scheme token topic w Htok Hno.
  assert (H1 : merchant_token_of (Some (scheme ++ " " ++ token)%string) = Some token).
  { unfold merchant_token_of.
    assert (Ht : truthy (scheme ++ " " ++ token) = true) by now destruct scheme.
    rewrite Ht. unfold py_split.
    change (scheme ++ " " ++ token)%string with (scheme ++ String " " token)%string.
    now rewrite last_split_from_suffix. }
  assert (H2 : merchant_token_of (Some token) = Some token).
  { unfold merchant_token_of. rewrite Htok. unfold py_split.
    rewrite split_from_no_sep by exact Hno. reflexivity. }
  split; [exact H1|]. split; [exact H2|].
  unfold export_csv_for_topic. now rewrite H1, H2.
Qed.

Lemma authorization_scheme_witness :
  merchant_token_of (Some ("Basic" ++ " " ++ "token-1")%string) = Some "token-1"
  /\ merchant_token_of (Some "token-1") = Some "token-1"
  /\ export_csv_for_topic sample_env (Some ("Basic" ++ " " ++ "token-1")%string) "addOffer" sample_world
     = export_csv_for_topic sample_env (Some "token-1") "addOffer" sample_world.
Proof.
  apply (authorization_scheme_is_ignored sample_env "Basic" "token-1" "addOffer" sample_world).
  - reflexivity.
  - simpl. intros H. repeat (destruct H as [H|H]; [discriminate|]). exact H.
Defined.

(** ** Startup without a broker *)

(** X15. When the broker cannot be reached, [__init__] raises
    [NoBrokersAvailable] at the creation of the consumer, before any
    buffer is created. *)
Theorem startup_fails_without_broker :
  forall (broker : Broker) (w : World),
    reachable broker = false ->
    KafkaHandler_init broker w
    = (Raise (Exn NoBrokersAvailable "NoBrokersAvailable"),
       {| dumps := dumps w; trace := trace w ++ [Kafka KOpen] |}).
Proof.
  intros broker w Hr. unfold KafkaHandler_init.
  unfold mbind at 1, M_bind. unfold kafka at 1. msimpl.
  unfold KafkaConsumer_new. rewrite Hr. reflexivity.
Qed.

Lemma startup_fails_witness :
  KafkaHandler_init unreachable_broker sample_world
  = (Raise (Exn NoBrokersAvailable "NoBrokersAvailable"),
     {| dumps := dumps sample_world; trace := trace sample_world ++ [Kafka KOpen] |}).
Proof. apply (startup_fails_without_broker unreachable_broker sample_world). reflexivity. Defined.

(** ** The shaper on payloads that are no situations *)

Lemma expand_situations_prefix : forall good views rest expanded_offers,
  Forall2 is_situation good views ->
  expand_situations (good ++ rest) expanded_offers
  = expand_situations rest (expanded_offers ++ flat_map situation_rows views).
Proof.
  intros good views rest expanded_offers H. revert expanded_offers.
  induction H as [|situation v good views Hv _ IH]; intros expanded_offers.
  - simpl. now rewrite app_nil_r.
  - rewrite <- app_comm_cons. cbn [expand_situations]. pose proof Hv as (-> & Hoffers & _).
    simpl. rewrite Hoffers. cbv [mbind result_bind]. simpl.
    rewrite (expand_offers_rows v _ _ _ Hv), IH, <- app_assoc. reflexivity.
Qed.

(** X16. After any number of situations, a payload without [offers] makes
    the shaper raise [KeyError: 'offers'], one with offers but without
    [timestamp] [KeyError: 'timestamp'], and a payload that is null, a bool
    or a number the [TypeError] that names its type as not subscriptable:
    the rows built so far are lost. A payload with an empty [offers] list
    gives no row and needs no [timestamp]. *)
Theorem shaper_fails_on_missing_field :
  forall (good rest : list json) (views : list situation_view)
         (fields : list (string * json)),
    Forall2 is_situation good views ->
    (dict_get "offers" fields = None ->
       market_situation_shaper (good ++ JObj fields :: rest) = Raise (Exn KeyError "'offers'"))
    /\ (forall offer offers,
          dict_get "offers" fields = Some (JList (offer :: offers)) ->
          dict_get "timestamp" fields = None ->
          market_situation_shaper (good ++ JObj fields :: rest)
          = Raise (Exn KeyError "'timestamp'"))
    /\ (dict_get "offers" fields = Some (JList []) ->
          market_situation_shaper (good ++ [JObj fields]) = Ok (flat_map situation_rows views))
    /\ (forall j, scalar j ->
          market_situation_shaper (good ++ j :: rest)
          = Raise (type_error ("'" ++ type_name j ++ "' object is not subscriptable")%string)).
Proof.
  intros good rest views fields Hgood. unfold market_situation_shaper.
  split; [|split; [|split]].
  - intros Hoff. rewrite (expand_situations_prefix _ _ _ _ Hgood). simpl. now rewrite Hoff.
  - intros offer offers Hoff Hts. rewrite (expand_situations_prefix _ _ _ _ Hgood).
    simpl. rewrite Hoff. cbv [mbind result_bind]. simpl. now rewrite Hts.
  - intros Hoff. rewrite (expand_situations_prefix _ _ _ _ Hgood). simpl. now rewrite Hoff.
  - intros j Hj. rewrite (expand_situations_prefix _ _ _ _ Hgood).
    destruct j; try contradiction; reflexivity.
Qed.

Lemma shaper_fails_witness :
  market_situation_shaper ([sample_situation] ++ JObj [("timestamp", JInt 1)] :: [])
  = Raise (Exn KeyError "'offers'")
  /\ market_situation_shaper ([sample_situation] ++ JInt 5 :: [])
     = Raise (type_error "'int' object is not subscriptable").
Proof.
  destruct (shaper_fails_on_missing_field [sample_situation] [] [sample_view]
              [("timestamp", JInt 1)]) as (H1 & _ & _ & H4).
  - constructor; [exact sample_is_situation | constructor].
  - split; [apply H1; reflexivity | apply (H4 (JInt 5)); exact I].
Defined.

(** ** wait_for_kafka *)

Lemma wait_loop_retries kafka_endpoint timeout start failures :
  forall readings clock attempts calls,
    length readings = length failures ->
    Forall (fun now => in_time timeout start now = true) readings ->
    Forall no_brokers failures ->
    wait_loop kafka_endpoint timeout start (readings ++ clock) (failures ++ attempts) calls
    = wait_loop kafka_endpoint timeout start clock attempts (calls + length failures).
Proof.
  induction failures as [|r failures IH]; intros readings clock attempts calls Hlen Hin Hno.
  - destruct readings; [|discriminate]. simpl. now rewrite Nat.add_0_r.
  - destruct readings as [|now readings]; [discriminate|].
    apply Forall_cons in Hin as [Hnow Hin]. apply Forall_cons in Hno as [Hr Hno].
    simpl in Hlen. injection Hlen as Hlen.
    rewrite <- !app_comm_cons. cbn [wait_loop].
    unfold in_time in Hnow. rewrite Hnow.
    destruct r as [[]|e]; [contradiction|]. simpl in Hr. rewrite Hr.
    rewrite IH by assumption. f_equal. simpl. lia.
Qed.

(** X17. [wait_for_kafka] tries again as long as the constructor raises
    [NoBrokersAvailable] and the clock is within the timeout: it returns
    at the first attempt that succeeds, lets any other exception through,
    and raises ['<endpoint> not reachable'] at the first reading of the
    clock that is past the timeout, without a further attempt. *)
Theorem wait_for_kafka_outcomes :
  forall (kafka_endpoint : string) (timeout start : float)
         (readings clock : list float) (failures attempts : list (result unit)),
    length readings = length failures ->
    Forall (fun now => in_time timeout start now = true) readings ->
    Forall no_brokers failures ->
    (forall now r, in_time timeout start now = true ->
       wait_for_kafka kafka_endpoint timeout
         (start :: readings ++ now :: clock) (failures ++ Ok r :: attempts)
       = Some (Ok tt, S (length failures)))
    /\ (forall now e, in_time timeout start now = true ->
          exn_cls e <> NoBrokersAvailable ->
          wait_for_kafka kafka_endpoint timeout
            (start :: readings ++ now :: clock) (failures ++ Raise e :: attempts)
          = Some (Raise e, S (length failures)))
    /\ (forall now, in_time timeout start now = false ->
          wait_for_kafka kafka_endpoint timeout
            (start :: readings ++ now :: clock) (failures ++ attempts)
          = Some (Raise (Exn OtherError (kafka_endpoint ++ " not reachable")%string),
                  length failures)).
Proof.
  intros kafka_endpoint timeout start readings clock failures attempts Hlen Hin Hno.
  unfold wait_for_kafka. split; [|split].
  - intros now r Hnow. rewrite (wait_loop_retries _ _ _ _ _ _ _ _ Hlen Hin Hno).
    cbn [wait_loop]. unfold in_time in Hnow. rewrite Hnow. reflexivity.
  - intros now e Hnow He. rewrite (wait_loop_retries _ _ _ _ _ _ _ _ Hlen Hin Hno).
    cbn [wait_loop]. unfold in_time in Hnow. rewrite Hnow.
    destruct (exn_cls e); try reflexivity. contradiction.
  - intros now Hnow. rewrite (wait_loop_retries _ _ _ _ _ _ _ _ Hlen Hin Hno).
    cbn [wait_loop]. unfold in_time in Hnow. rewrite Hnow. reflexivity.
Qed.

Lemma wait_for_kafka_witness :
  wait_for_kafka "kafka:9092" 60
    (1000%float :: [1001%float; 1002.5%float] ++ 1003%float :: [])
    ([Raise (Exn NoBrokersAvailable "NoBrokersAvailable");
      Raise (Exn NoBrokersAvailable "NoBrokersAvailable")] ++ Ok tt :: [])
  = Some (Ok tt, 3%nat).
Proof.
  apply (wait_for_kafka_outcomes "kafka:9092" 60 1000 [1001%float; 1002.5%float] []
           [Raise (Exn NoBrokersAvailable "NoBrokersAvailable");
            Raise (Exn NoBrokersAvailable "NoBrokersAvailable")] []).
  - reflexivity.
  - repeat constructor.
  - repeat constructor.
  - reflexivity.
Defined.

(** ** Test vectors *)

Example sha256_constants :
  length Sha256.primes = 64%nat /\ List.last Sha256.primes 0 = 311
  /\ nth 0 Sha256.K 0 = 1116352408 /\ nth 63 Sha256.K 0 = 3329325298
  /\ Sha256.ra Sha256.H0 = 1779033703 /\ Sha256.rh Sha256.H0 = 1541459225.
Proof. vm_compute. repeat split; reflexivity. Qed.

Example run_sample :
  run [record_404; record_200; record_plain; record_garbled] sample_world
  = (Ok tt,
     {| dumps :=
          dict_set "addOffer"
            {| maxlen := 100;
               items := [ {| out_topic := "addOffer"; out_timestamp := 9;
                             out_value := JObj [("price", JFloat 12.5%float)] |} ] |}
            (dict_set "buyOffer"
               {| maxlen := 100;
                  items := [ {| out_topic := "buyOffer"; out_timestamp := 8;
                                out_value := JObj [("http_code", JInt 200); ("amount", JInt 2)] |} ] |}
               empty_dumps);
        trace :=
          [ SocketioEmit "buyOffer"
              {| out_topic := "buyOffer"; out_timestamp := 8;
                 out_value := JObj [("http_code", JInt 200); ("amount", JInt 2)] |};
            SocketioEmit "addOffer"
              {| out_topic := "addOffer"; out_timestamp := 9;
                 out_value := JObj [("price", JFloat 12.5%float)] |};
            Printed "error emit msg"
              (Exn ValueError "Expecting value: line 1 column 1 (char 0)") ] |}).
Proof. vm_compute. reflexivity. Qed.

Example export_with_token_sample :
  export_csv_for_topic sample_env (Some "Bearer token-1") "addOffer" sample_world
  = (Ok [("url", "data/addOffer_1500000000.csv")],
     {| dumps := empty_dumps;
        trace := [Hashed "token-1"] ++ window_calls "addOffer" 0
                 ++ [ Kafka KIterate; Kafka KClose;
                      ToCsv "data/addOffer_1500000000.csv"
                        [ JObj [("offer_id", JInt 1)];
                          JObj [("offer_id", JInt 2);
                                ("merchant_id",
                                 JStr "PwiqzhIu4jaEMsHKI6BJvGQLr78A/fM6UkKfOLoS2/k=")] ] ] |}).
Proof. vm_compute. reflexivity. Qed.

Example type_error_texts :
  py_in "k" (JInt 5) = Raise (type_error "argument of type 'int' is not iterable")
  /\ py_getitem JNull "k" = Raise (type_error "'NoneType' object is not subscriptable")
  /\ py_setitem (JStr "s") "k" JNull
     = Raise (type_error "'str' object does not support item assignment")
  /\ py_iter (JFloat 1.5%float) = Raise (type_error "'float' object is not iterable")
  /\ market_situation_shaper [JObj [("offers", JInt 5)]]
     = Raise (type_error "'int' object is not iterable").
Proof. repeat split; reflexivity. Qed.

Example calculate_id_abc : calculate_id "abc" = "ungWv48Bz+pBQUDeXa4iI7ADYaOWF3qctBD/YfIAFa0=".
Proof. vm_compute. reflexivity. Qed.

Example calculate_id_empty : calculate_id "" = "47DEQpj8HBSa+/TImW+5JCeuQeRkm5NMpJWZG3hSuFU=".
Proof. vm_compute. reflexivity. Qed.

Example calculate_id_token_1 : calculate_id "token-1" = "PwiqzhIu4jaEMsHKI6BJvGQLr78A/fM6UkKfOLoS2/k=".
Proof. vm_compute. reflexivity. Qed.

Example calculate_id_two_blocks :
  calculate_id "aaaaaaaaaaaaaaaaaaaaaaaaaaaaaaaaaaaaaaaaaaaaaaaaaaaaaaaaaaaaaaaaaaaaaa"
  = "a9XlA0hVoRJB8N7o/HKFD/2ZVbKDR6hkKLX6GRGfatA=".
Proof. vm_compute. reflexivity. Qed.

Example calculate_id_latin_1 :
  calculate_id (String "m" (String (ascii_of_nat 233) EmptyString))
  = "+CvFKYsTpSc9yGKJs5E9hMJTBadOAjGPajDXsG7DDQw=".
Proof. vm_compute. reflexivity. Qed.

Example py_split_samples :
  py_split " " "Bearer  tok" = ["Bearer"; ""; "tok"]
  /\ py_split " " "" = [""]
  /\ py_split " " "tok " = ["tok"; ""].
Proof. vm_compute. repeat split; reflexivity. Qed.

Example py_str_int_samples : py_str_int 0 = "0" /\ py_str_int 1512 = "1512".
Proof. vm_compute. split; reflexivity. Qed.

Example py_eq_200_samples :
  py_eq_200 (JFloat 200%float) = true /\ py_eq_200 (JInt 200) = true
  /\ py_eq_200 (JStr "200") = false /\ py_eq_200 (JBool true) = false.
Proof. vm_compute. repeat split; reflexivity. Qed.
